(** * Shallow embedding of sc-bodeplot.py

    The script sweeps a sine generator over a geometric frequency sequence,
    captures two oscilloscope channels per step, reduces them to an RMS
    value and an FFT fundamental per channel, appends a record to the global
    list [data], and writes [data] to a CSV file after the loop.

    Numbers are modelled as exact reals (Stdlib [R]); the hardware
    (sound card, oscilloscope, calibration) is the function [scope_read]
    that returns the two scaled voltage lists, or raises. *)

From Stdlib Require Import Reals Lra Lia List ZArith Sorting.Sorted.
Import ListNotations.
Open Scope R_scope.

(** ** Python exceptions the sweep can raise *)
Inductive exn :=
| ZeroDivisionError   (* [x / 0] on a Python float or int *)
| ValueError          (* [np.argmax] of an empty array *)
| IndexError          (* [data_array[:,0]] of an empty [np.array(data)] *)
| AcquisitionError    (* raised by the oscilloscope / generator calls *)
| OSError.            (* [open] / [write] on a file that cannot be written *)

(** A small error monad for the straight-line part of a sweep step. *)
Inductive result (A : Type) :=
| Ok (a : A)
| Err (e : exn).
Arguments Ok {A} a.
Arguments Err {A} e.

Definition bind {A B} (m : result A) (k : A -> result B) : result B :=
  match m with Ok a => k a | Err e => Err e end.

Notation "'let*' x := m 'in' k" := (bind m (fun x => k))
  (at level 200, x name, m at level 100, k at level 200).

(** Python float division: raises on a zero divisor. *)
Definition py_div (x y : R) : result R :=
  if Req_dec_T y 0 then Err ZeroDivisionError else Ok (x / y).

(** ** Global constants (lines 77-79) *)
Definition samplerates : list Z :=
  [20; 32; 50; 64; 100; 128; 200; 500; 1000; 2000; 4000; 8000; 10000]%Z.

(** ** Sample-rate selection (lines 128-132)
<<
    samplerate_target = 4*freq
    samplerate = samplerates[0]
    for sr in samplerates:
        if samplerate < samplerate_target:
            samplerate = sr
>> *)
Definition samplerate_step (target : R) (samplerate sr : Z) : Z :=
  if Rlt_dec (IZR samplerate) target then sr else samplerate.

Definition select_samplerate (freq : R) : Z :=
  let samplerate_target := 4 * freq in
  fold_left (samplerate_step samplerate_target) samplerates (hd 0%Z samplerates).

(** ** RMS and DC value of one channel (lines 160-167)
<<
    rms1 = 0; dc1 = 0; n1 = 0
    for v in voltage_data1:
        rms1 = rms1 + v*v; dc1 = dc1 + v; n1 = n1 + 1
    rms1 = math.sqrt(rms1/n1) - dc1/n1
>>
    [n1 = 0] makes [rms1/n1] raise [ZeroDivisionError]. *)
Definition rms_acc (acc : R * R * nat) (v : R) : R * R * nat :=
  let '(rms, dc, n) := acc in (rms + v * v, dc + v, S n).

Definition rms_of (voltage_data : list R) : result R :=
  let '(rms, dc, n) := fold_left rms_acc voltage_data (0, 0, 0%nat) in
  let* ms := py_div rms (INR n) in
  let* mean := py_div dc (INR n) in
  Ok (sqrt ms - mean).

(** ** Discrete Fourier transform ([np.fft.fft]) and polar form *)

(** Bin [k] of the DFT of [v] (length [N]), as (real part, imaginary part):
    X_k = sum_n v_n * exp(-2 pi i k n / N). *)
Fixpoint dft_sum (v : list R) (n k N : nat) : R * R :=
  match v with
  | [] => (0, 0)
  | x :: t =>
      let '(re, im) := dft_sum t (S n) k N in
      let a := 2 * PI * INR k * INR n / INR N in
      (x * cos a + re, - (x * sin a) + im)
  end.

Definition fft (v : list R) : list (R * R) :=
  map (fun k => dft_sum v 0 k (length v)) (seq 0 (length v)).

(** [np.abs] of a complex number. *)
Definition cabs (z : R * R) : R := sqrt (fst z * fst z + snd z * snd z).

(** [atan2] as used by [np.angle] (value in (-pi, pi]). *)
Definition atan2 (y x : R) : R :=
  if Rlt_dec 0 x then atan (y / x)
  else if Rlt_dec x 0 then
    (if Rle_dec 0 y then atan (y / x) + PI else atan (y / x) - PI)
  else if Rlt_dec 0 y then PI / 2
  else if Rlt_dec y 0 then - (PI / 2)
  else 0.

Definition angle (z : R * R) : R := atan2 (snd z) (fst z).

(** [np.argmax]: index of the first maximal element; empty input raises. *)
Fixpoint argmax_from (l : list R) (i bi : nat) (bv : R) : nat :=
  match l with
  | [] => bi
  | x :: t =>
      if Rlt_dec bv x then argmax_from t (S i) i x
      else argmax_from t (S i) bi bv
  end.

Definition argmax (l : list R) : result nat :=
  match l with
  | [] => Err ValueError
  | x :: t => Ok (argmax_from t 1 0 x)
  end.

(** ** Fundamental of one channel (lines 180-195)
<<
    fft_values = np.fft.fft(voltage_data1)
    N = len(voltage_data1)
    fft_magnitude = np.abs(fft_values)[:N // 2] / N
    fft_phase = np.angle(fft_values)[:N // 2]
    fundamental_index = np.argmax(fft_magnitude[1:]) + 1
    fundamental_magnitude = fft_magnitude[fundamental_index]
    fundamental_phase = fft_phase[fundamental_index]
>>
    The bin frequency ([np.fft.fftfreq]) is computed by the script but never
    recorded, so it is left out. Result: (index, magnitude, phase). *)
Definition fft_magnitude (voltage_data : list R) : list R :=
  let N := length voltage_data in
  map (fun z => cabs z / INR N) (firstn (N / 2) (fft voltage_data)).

Definition fft_phase (voltage_data : list R) : list R :=
  let N := length voltage_data in
  map angle (firstn (N / 2) (fft voltage_data)).

Definition fundamental (voltage_data : list R) : result (nat * R * R) :=
  let mags := fft_magnitude voltage_data in
  let phases := fft_phase voltage_data in
  let* i := argmax (tl mags) in
  let fundamental_index := S i in
  Ok (fundamental_index, nth fundamental_index mags 0,
      nth fundamental_index phases 0).

(** ** Phase difference (lines 216-220) *)
Definition wrap_phase (deltaphase : R) : R :=
  let d1 := if Rlt_dec PI deltaphase then deltaphase - 2 * PI else deltaphase in
  if Rlt_dec d1 (- PI) then d1 + 2 * PI else d1.

(** ** One record: [data.append([freq, rms1, rms2, rms1/rms2, deltaphase])] *)
Record record := mk_record {
  r_freq : R;
  r_rms1 : R;
  r_rms2 : R;
  r_gain : R;
  r_phase : R
}.

(** Lines 159-223: everything a step computes from the two voltage lists. *)
Definition analyze (freq : R) (voltage_data1 voltage_data2 : list R)
  : result record :=
  let* rms1 := rms_of voltage_data1 in
  let* rms2 := rms_of voltage_data2 in
  let* f1 := fundamental voltage_data1 in
  let* f2 := fundamental voltage_data2 in
  let fundamental_phase := snd f1 in
  let fundamental_phase2 := snd f2 in
  let deltaphase := wrap_phase (fundamental_phase - fundamental_phase2) in
  let* gain := py_div rms1 rms2 in
  Ok (mk_record freq rms1 rms2 gain deltaphase).

(** The acquisition side of a step (lines 125-157): set the generator,
    choose the sample rate, capture and scale both channels. It is the
    hardware, so it is a parameter: given the chosen sample rate and the
    frequency it returns the scaled voltages, or raises. *)
Definition scope_reader := Z -> R -> result (list R * list R).

Definition measure (scope_read : scope_reader) (freq : R) : result record :=
  let samplerate := select_samplerate freq in
  let* vs := scope_read samplerate freq in
  analyze freq (fst vs) (snd vs).

(** ** The sweep loop (lines 119-226)

    [fuel] bounds the number of loop tests; [None] means the loop was still
    running when the fuel ran out. The final pair is the exception that
    escaped the loop (if any) and the global [data] at that point. *)
Fixpoint sweep_loop (scope_read : scope_reader) (fstop fstep : R)
    (fuel : nat) (freq : R) (data : list record)
    : option (option exn * list record) :=
  match fuel with
  | O => None
  | S fuel' =>
      if Rlt_dec freq fstop then
        match measure scope_read freq with
        | Ok r => sweep_loop scope_read fstop fstep fuel' (freq * fstep) (data ++ [r])
        | Err e => Some (Some e, data)
        end
      else Some (None, data)
  end.

(** ** The whole script after device setup (lines 119-242)

    Setup (lines 101-120, including [sinewave.play()]) is outside the model:
    the run starts at the loop with [freq = fstart] and [data = []]. After a
    normal loop exit three calls that can raise run in turn: the scope
    handle is closed (line 229), the generator is stopped (line 230), and
    the CSV file [options.filename] is opened and the header and the rows of
    [data] are written (lines 233-236). Their answers come from the device
    and the file system, hence [exit_io]. When all three succeed,
    [data_array[:,0]] (line 240) raises [IndexError] when [data] is empty.
    An exception (in a step or in one of these calls) ends the script:
    nothing after it runs. [csv_rows] is [Some rows] when the CSV file was
    completely written, with [rows] as its data rows; [scope_closed] is
    [true] when [scope.close_handle()] returned. *)
Record outcome := mk_outcome {
  raised : option exn;
  data_at_exit : list record;
  scope_closed : bool;
  csv_rows : option (list record)
}.

Record exit_io := mk_exit_io {
  close_handle : result unit;                (* [scope.close_handle()] *)
  sinewave_stop : result unit;               (* [sinewave.stop()] *)
  write_csv : list record -> result unit     (* [open(options.filename, 'w')],
                                                [writerow], [writerows(data)] *)
}.

Definition after_loop (io : exit_io) (data : list record) : outcome :=
  match close_handle io with
  | Err e => mk_outcome (Some e) data false None
  | Ok _ =>
      match sinewave_stop io with
      | Err e => mk_outcome (Some e) data true None
      | Ok _ =>
          match write_csv io data with
          | Err e => mk_outcome (Some e) data true None
          | Ok _ =>
              let plot_error := match data with [] => Some IndexError | _ => None end in
              mk_outcome plot_error data true (Some data)
          end
      end
  end.

Definition run_program (scope_read : scope_reader) (io : exit_io)
    (fstart fstop fstep : R) (fuel : nat) : option outcome :=
  match sweep_loop scope_read fstop fstep fuel fstart [] with
  | None => None
  | Some (Some e, data) => Some (mk_outcome (Some e) data false None)
  | Some (None, data) => Some (after_loop io data)
  end.

(** ** Sample-rate ID (lines 134-137)
<<
    if samplerate < 1e3:
        sample_id = int( round( 100 + samplerate / 10 ) )
    else:
        sample_id = int( round( samplerate / 1e3 ) )
>>
    Python's [round] rounds to the nearest integer, ties to even. For an
    integer [samplerate] the float [100 + samplerate/10] is exact at every
    tie, so rounding the exact rational [a / b] gives the same integer. *)
Definition round_half_even (a b : Z) : Z :=
  let q := (a / b)%Z in
  let r := (a mod b)%Z in
  if (2 * r <? b)%Z then q
  else if (b <? 2 * r)%Z then (q + 1)%Z
  else if Z.even q then q else (q + 1)%Z.

Definition sample_id (samplerate : Z) : Z :=
  if (samplerate <? 1000)%Z then round_half_even (1000 + samplerate) 10
  else round_half_even samplerate 1000.

(** ** Capture and skip (lines 77-79, 94-98, 125-157)

    The calls of a step before the analysis, in source order; every one of
    them can raise, and their answers come from the devices, the scope
    library and the file system, hence [capture_io]:
    - [read_data sample_id freq n] stands for lines 125-151: set the
      generator to [freq], set the scope rate to [sample_id], read the
      calibration, and capture [n] raw samples per channel;
    - [scale_read_data raw gain channel] (lines 152 and 155);
    - [open_outfile freq]: [open("outfile.csv", "w")] at the step for [freq]
      (line 153);
    - [convert_sampling_rate_to_measurement_times n sample_id] (line 156),
      whose timing list is then written with [outfile_write freq] (line 157).
    The first [skip] samples of each channel are dropped. *)
Definition channelGain : Z := 10.
Definition blocks : nat := 20.
Definition skip : nat := (2 * 1024)%nat.
Definition data_points : nat := (blocks * 1024 + skip)%nat.

Record capture_io := mk_capture_io {
  read_data : Z -> R -> nat -> result (list Z * list Z);
  scale_read_data : list Z -> Z -> nat -> result (list R);
  open_outfile : R -> result unit;
  convert_sampling_rate_to_measurement_times : nat -> Z -> result (list R);
  outfile_write : R -> list R -> result unit
}.

Definition capture_reader (io : capture_io) : scope_reader :=
  fun samplerate freq =>
    let id := sample_id samplerate in
    let* raw := read_data io id freq data_points in
    let* voltage_data1 := scale_read_data io (skipn skip (fst raw)) channelGain 1%nat in
    let* _ := open_outfile io freq in
    let* voltage_data2 := scale_read_data io (skipn skip (snd raw)) channelGain 2%nat in
    let* timing_data :=
      convert_sampling_rate_to_measurement_times io (data_points - skip) id in
    let* _ := outfile_write io freq timing_data in
    Ok (voltage_data1, voltage_data2).

(** ** Plot columns (lines 239-242)
<<
    data_array = np.array(data)
    frequencies = data_array[:,0]; gains = data_array[:,3]
    phase = data_array[:,4]*180/math.pi
>>
    An empty [data] gives a 1-D empty array and [[:,0]] raises. *)
Definition plot_columns (data : list record) : result (list R * list R * list R) :=
  match data with
  | [] => Err IndexError
  | _ => Ok (map r_freq data, map r_gain data,
             map (fun r => r_phase r * 180 / PI) data)
  end.

(** ** Readings of the spec, for comparison with the code *)

(** Sample-rate policy as the spec words it: the largest table entry
    strictly below [4*freq]; the lowest entry when there is none. *)
Fixpoint largest_below_spec (target : R) (l : list Z) (dflt : Z) : Z :=
  match l with
  | [] => dflt
  | e :: t =>
      if Rlt_dec (IZR e) target then largest_below_spec target t e
      else largest_below_spec target t dflt
  end.

(** First (hence smallest, the table being ascending) entry that is at
    least [target]. *)
Definition first_at_least (target : R) (l : list Z) : option Z :=
  find (fun e => if Rle_dec target (IZR e) then true else false) l.

(** Sums over a voltage list. *)
Definition sum_list (v : list R) : R := fold_right Rplus 0 v.
Definition sum_sq (v : list R) : R := fold_right (fun x acc => x * x + acc) 0 v.

Definition mean (v : list R) : R := sum_list v / INR (length v).
Definition mean_sq (v : list R) : R := sum_sq v / INR (length v).

(** The standard AC RMS, [sqrt(mean((v - mean v)^2))]. *)
Definition ac_rms (v : list R) : R :=
  let m := mean v in
  sqrt (fold_right (fun x acc => (x - m) * (x - m) + acc) 0 v / INR (length v)).

(** ** Concrete captures used to run the model *)

(** Four samples of a square wave at a quarter of the sample rate: RMS 1,
    DC 0, two positive-frequency bins. *)
Definition sample_voltages : list R := [1; -1; 1; -1].

(** Four samples of a constant 1 V: RMS of the raw values 1, DC 1. *)
Definition dc_voltages : list R := [1; 1; 1; 1].

(** An acquisition that always captures [sample_voltages] on both channels. *)
Definition sample_read : scope_reader :=
  fun _ _ => Ok (sample_voltages, sample_voltages).

(** An acquisition that raises from frequency [fail_at] on. *)
Definition failing_read (fail_at : R) : scope_reader :=
  fun _ freq =>
    if Rlt_dec freq fail_at then Ok (sample_voltages, sample_voltages)
    else Err AcquisitionError.

(** The record [analyze] produces from [sample_voltages] on both channels. *)
Definition sample_phase : R := nth 1 (fft_phase sample_voltages) 0.

Definition sample_record (freq : R) : record :=
  mk_record freq 1 1 (1 / 1) (wrap_phase (sample_phase - sample_phase)).

(** Closing calls that all succeed, and ones whose CSV file cannot be
    opened (an unwritable [--filename]). *)
Definition exit_ok : exit_io := mk_exit_io (Ok tt) (Ok tt) (fun _ => Ok tt).
Definition exit_csv_fails : exit_io :=
  mk_exit_io (Ok tt) (Ok tt) (fun _ => Err OSError).

(** Step calls that all succeed: the scope returns [n] samples of 0 V per
    channel, the scaling maps each raw value to itself. *)
Definition zero_capture_io : capture_io :=
  mk_capture_io (fun _ _ n => Ok (repeat 0%Z n, repeat 0%Z n))
    (fun raw _ _ => Ok (map IZR raw)) (fun _ => Ok tt) (fun _ _ => Ok [])
    (fun _ _ => Ok tt).

(** The same, with a scope that returns no sample on channel 1. *)
Definition short_capture_io : capture_io :=
  mk_capture_io (fun _ _ _ => Ok ([], [1%Z]))
    (fun raw _ _ => Ok (map IZR raw)) (fun _ => Ok tt) (fun _ _ => Ok [])
    (fun _ _ => Ok tt).

(** Eight samples of a cosine at a quarter of the sample rate: of the
    candidate bins 1, 2 and 3 only bin 2 has a non-zero magnitude. *)
Definition quarter_voltages : list R := [1; 0; -1; 0; 1; 0; -1; 0].

(** [(cos (k * pi/2), sin (k * pi/2))], to evaluate the DFT of
    [quarter_voltages]. *)
Fixpoint quarter_turn (k : nat) : R * R :=
  match k with
  | O => (1, 0)
  | S k' => let '(c, s) := quarter_turn k' in (- s, c)
  end.

(** The records of the sweep 100, 200, 400, 800 (stop 1000, ratio 2). *)
Definition sample_rows : list record :=
  [sample_record 100; sample_record (100 * 2);
   sample_record (100 * 2 * 2); sample_record (100 * 2 * 2 * 2)].

(** ** Sample-rate selection lemmas *)

Lemma last_nonempty_indep {A} (z : A) (t : list A) (x y : A) :
  last (z :: t) x = last (z :: t) y.
Proof.
  revert z; induction t as [|b t IH]; intros z; [reflexivity|].
  change (last (b :: t) x = last (b :: t) y). apply IH.
Qed.

Lemma fold_samplerate_step (target : R) (l : list Z) (s : Z) :
  fold_left (samplerate_step target) l s =
  if Rlt_dec (IZR s) target then
    match first_at_least target l with Some e => e | None => last l s end
  else s.
Proof.
  revert s; induction l as [|a t IH]; intros s; simpl.
  - destruct (Rlt_dec (IZR s) target); reflexivity.
  - rewrite IH.
    assert (Hstep : samplerate_step target s a =
                    if Rlt_dec (IZR s) target then a else s) by reflexivity.
    rewrite Hstep.
    destruct (Rlt_dec (IZR s) target) as [Hs|Hs].
    + unfold first_at_least; simpl.
      destruct (Rle_dec target (IZR a)) as [Ha|Ha].
      * destruct (Rlt_dec (IZR a) target); [lra | reflexivity].
      * destruct (Rlt_dec (IZR a) target) as [_|Ha']; [|lra].
        destruct t as [|z t]; [reflexivity|].
        destruct (find _ (z :: t)); [reflexivity|].
        apply last_nonempty_indep.
    + destruct (Rlt_dec (IZR s) target); [contradiction | reflexivity].
Qed.

Lemma find_sorted_min (p : Z -> bool) (l : list Z) (x : Z) :
  Sorted.StronglySorted Z.lt l -> find p l = Some x ->
  forall e, In e l -> p e = true -> (x <= e)%Z.
Proof.
  induction l as [|a t IH]; intros Hs Hf e He Hp; [discriminate|].
  inversion Hs as [|? ? Hst Hall]; subst. simpl in Hf.
  destruct (p a) eqn:Hpa.
  - injection Hf as <-. destruct He as [<-|He]; [lia|].
    rewrite Forall_forall in Hall. specialize (Hall e He). lia.
  - destruct He as [<-|He]; [congruence|]. eauto.
Qed.

Lemma find_all_false {A} (p : A -> bool) (l : list A) :
  (forall e, In e l -> p e = false) -> find p l = None.
Proof.
  induction l as [|a t IH]; intros H; simpl; [reflexivity|].
  rewrite (H a (or_introl eq_refl)). apply IH. intros e He; apply H; now right.
Qed.

Lemma samplerates_sorted : Sorted.StronglySorted Z.lt samplerates.
Proof.
  unfold samplerates.
  repeat constructor; repeat (constructor; [lia|]); constructor.
Qed.

Lemma select_samplerate_eq (freq : R) :
  select_samplerate freq =
  match first_at_least (4 * freq) samplerates with
  | Some e => e
  | None => 10000%Z
  end.
Proof.
  unfold select_samplerate. simpl hd. rewrite fold_samplerate_step.
  destruct (Rlt_dec (IZR 20) (4 * freq)) as [H|H].
  - destruct (first_at_least (4 * freq) samplerates); reflexivity.
  - unfold first_at_least, samplerates; simpl.
    destruct (Rle_dec (4 * freq) (IZR 20)); [reflexivity | lra].
Qed.

(** ** C1: sample-rate selection *)

(** C1 (as the spec words it) fails at [freq = 10]: the target is 40, the
    spec's largest entry below 40 is 32, the loop selects 50. *)
Lemma C1_counterexample :
  select_samplerate 10 = 50%Z /\
  largest_below_spec (4 * 10) samplerates 20%Z = 32%Z.
Proof.
  split.
  - rewrite select_samplerate_eq. unfold first_at_least, samplerates; simpl.
    repeat match goal with
           | |- context [Rle_dec ?a ?b] => destruct (Rle_dec a b); try lra
           end; reflexivity.
  - unfold samplerates; simpl.
    repeat match goal with
           | |- context [Rlt_dec ?a ?b] => destruct (Rlt_dec a b); try lra
           end; reflexivity.
Qed.

(** C1 (amended): for [freq > 0] the loop selects the smallest table entry
    that is at least [4*freq]; when every entry is below [4*freq] it selects
    the highest entry (10000), and when every entry exceeds [4*freq] the
    lowest one (20). *)
Theorem select_samplerate_smallest_at_least (freq : R) :
  0 < freq ->
  ((exists e, In e samplerates /\ 4 * freq <= IZR e) ->
     In (select_samplerate freq) samplerates /\
     4 * freq <= IZR (select_samplerate freq) /\
     (forall e, In e samplerates -> 4 * freq <= IZR e ->
                (select_samplerate freq <= e)%Z)) /\
  ((forall e, In e samplerates -> IZR e < 4 * freq) ->
     select_samplerate freq = 10000%Z) /\
  ((forall e, In e samplerates -> 4 * freq < IZR e) ->
     select_samplerate freq = 20%Z).
Proof.
  intros _. rewrite select_samplerate_eq.
  split; [|split].
  - intros [e0 [Hin0 Hle0]].
    destruct (first_at_least (4 * freq) samplerates) as [x|] eqn:F.
    + unfold first_at_least in F.
      destruct (find_some _ _ F) as [Hx Hpx].
      destruct (Rle_dec (4 * freq) (IZR x)) as [Hle|]; [|discriminate].
      repeat split; auto.
      intros e He Hep.
      apply (find_sorted_min _ samplerates x samplerates_sorted F e He).
      destruct (Rle_dec (4 * freq) (IZR e)); [reflexivity | contradiction].
    + unfold first_at_least in F.
      pose proof (find_none _ _ F e0 Hin0) as Hf; simpl in Hf.
      destruct (Rle_dec (4 * freq) (IZR e0)); [discriminate | contradiction].
  - intros Hall.
    unfold first_at_least; rewrite (find_all_false _ samplerates); [reflexivity|].
    intros e He. specialize (Hall e He).
    destruct (Rle_dec (4 * freq) (IZR e)); [lra | reflexivity].
  - intros Hall.
    assert (H20 : 4 * freq < IZR 20) by (apply Hall; simpl; auto).
    unfold first_at_least, samplerates; simpl.
    destruct (Rle_dec (4 * freq) (IZR 20)); [reflexivity | lra].
Qed.

Lemma select_samplerate_smallest_at_least_witness :
  0 < 10 /\
  ((exists e, In e samplerates /\ 4 * 10 <= IZR e) ->
     In (select_samplerate 10) samplerates /\
     4 * 10 <= IZR (select_samplerate 10) /\
     (forall e, In e samplerates -> 4 * 10 <= IZR e ->
                (select_samplerate 10 <= e)%Z)).
Proof.
  split; [lra|].
  apply (select_samplerate_smallest_at_least 10). lra.
Defined.

(** ** C4: phase wrap *)

Lemma wrap_phase_id (d : R) : - PI <= d <= PI -> wrap_phase d = d.
Proof.
  intros [H1 H2]. unfold wrap_phase.
  destruct (Rlt_dec PI d); [lra|].
  destruct (Rlt_dec d (- PI)); [lra | reflexivity].
Qed.

(** C4 (as stated) fails: with [phase1 = 0] and [phase2 = pi], both in
    (-pi, pi], the difference is [-pi]; neither branch fires and [-pi] is
    kept, which lies outside (-pi, pi]. *)
Lemma wrap_phase_counterexample :
  wrap_phase (0 - PI) = - PI /\
  ~ (forall p1 p2, - PI < p1 <= PI -> - PI < p2 <= PI ->
       - PI < wrap_phase (p1 - p2) <= PI).
Proof.
  pose proof PI_RGT_0.
  assert (E : wrap_phase (0 - PI) = - PI)
    by (rewrite wrap_phase_id; lra).
  split; [exact E|].
  intros H'. specialize (H' 0 PI ltac:(lra) ltac:(lra)).
  rewrite E in H'. lra.
Qed.

(** C4 (amended): for phases in (-pi, pi] the wrapped difference lies in
    the closed interval [-pi, pi]. *)
Theorem wrap_phase_range (phase1 phase2 : R) :
  - PI < phase1 <= PI -> - PI < phase2 <= PI ->
  - PI <= wrap_phase (phase1 - phase2) <= PI.
Proof.
  intros H1 H2. pose proof PI_RGT_0. unfold wrap_phase.
  destruct (Rlt_dec PI (phase1 - phase2)).
  - destruct (Rlt_dec (phase1 - phase2 - 2 * PI) (- PI)); lra.
  - destruct (Rlt_dec (phase1 - phase2) (- PI)); lra.
Qed.

Lemma wrap_phase_range_witness :
  (- PI < 0 <= PI /\ - PI < PI <= PI) /\
  - PI <= wrap_phase (0 - PI) <= PI.
Proof.
  pose proof PI_RGT_0.
  split; [lra|].
  apply wrap_phase_range; lra.
Defined.

(** ** RMS lemmas *)

Lemma fold_rms_acc (v : list R) (q s : R) (n : nat) :
  fold_left rms_acc v (q, s, n) = (q + sum_sq v, s + sum_list v, (n + length v)%nat).
Proof.
  revert q s n; induction v as [|x t IH]; intros q s n; simpl.
  - f_equal; [f_equal; ring | lia].
  - rewrite IH. f_equal; [f_equal; ring | lia].
Qed.

Lemma rms_of_nil : rms_of [] = Err ZeroDivisionError.
Proof.
  unfold rms_of, py_div; simpl.
  destruct (Req_dec_T 0 0); [reflexivity | congruence].
Qed.

Lemma rms_of_eq (v : list R) :
  v <> [] -> rms_of v = Ok (sqrt (mean_sq v) - mean v).
Proof.
  intros Hv. unfold rms_of. rewrite fold_rms_acc. simpl.
  assert (Hn : INR (length v) <> 0).
  { apply not_0_INR. destruct v; [congruence | discriminate]. }
  unfold py_div. destruct (Req_dec_T (INR (length v)) 0); [contradiction|].
  simpl. unfold mean_sq, mean. rewrite !Rplus_0_l. reflexivity.
Qed.

Lemma sum_sq_nonneg (v : list R) : 0 <= sum_sq v.
Proof.
  induction v as [|x t IH]; simpl; nra.
Qed.

(** Cauchy-Schwarz for a list against the all-ones vector. *)
Lemma sum_list_sq_le (v : list R) :
  sum_list v * sum_list v <= INR (length v) * sum_sq v.
Proof.
  induction v as [|x t IH]; [simpl; lra|].
  pose proof (pos_INR (length t)) as Hn.
  pose proof (sum_sq_nonneg t) as Hq.
  change (length (x :: t)) with (S (length t)).
  change (sum_list (x :: t)) with (x + sum_list t).
  change (sum_sq (x :: t)) with (x * x + sum_sq t).
  rewrite S_INR.
  set (n := INR (length t)) in *. set (S := sum_list t) in *.
  set (Q := sum_sq t) in *.
  destruct (Req_dec_T n 0) as [Hz|Hz].
  - assert (S * S <= 0) by (rewrite Hz in IH; lra).
    assert (S = 0) by nra. subst n. rewrite Hz. nra.
  - assert (Hpos : 0 < n) by lra.
    assert (Hk : 0 <= n * (Q - 2 * S * x + n * x * x)).
    { pose proof (Rle_0_sqr (S - n * x)) as Hsq. unfold Rsqr in Hsq. nra. }
    assert (0 <= Q - 2 * S * x + n * x * x).
    { destruct (Rle_dec 0 (Q - 2 * S * x + n * x * x)); [assumption|].
      nra. }
    nra.
Qed.

Lemma mean_le_sqrt_mean_sq (v : list R) :
  v <> [] -> mean v <= sqrt (mean_sq v).
Proof.
  intros Hv.
  assert (Hn : 0 < INR (length v)).
  { apply lt_0_INR. destruct v; [congruence | simpl; lia]. }
  destruct (Rle_dec (mean v) 0) as [Hm|Hm].
  - pose proof (sqrt_pos (mean_sq v)). lra.
  - rewrite <- (sqrt_square (mean v)) by lra.
    apply sqrt_le_1_alt.
    unfold mean, mean_sq.
    pose proof (sum_list_sq_le v) as H.
    replace (sum_list v / INR (length v) * (sum_list v / INR (length v)))
      with ((sum_list v * sum_list v) / INR (length v) / INR (length v))
      by (field; lra).
    unfold Rdiv. apply Rmult_le_compat_r.
    + left. apply Rinv_0_lt_compat. exact Hn.
    + apply (Rmult_le_reg_l (INR (length v))); [exact Hn|].
      rewrite <- Rmult_assoc, Rinv_r_simpl_m by lra. lra.
Qed.

Lemma rms_of_nonneg (v : list R) (r : R) : rms_of v = Ok r -> 0 <= r.
Proof.
  destruct v as [|x t].
  - rewrite rms_of_nil. discriminate.
  - rewrite rms_of_eq by discriminate. intros E. injection E as <-.
    pose proof (mean_le_sqrt_mean_sq (x :: t) ltac:(discriminate)). lra.
Qed.

(** ** [np.argmax] lemmas *)

Lemma argmax_from_spec (t p : list R) (bi : nat) (bv : R) :
  (bi < length p)%nat -> nth bi p 0 = bv ->
  (forall j, (j < length p)%nat -> nth j p 0 <= bv) ->
  (forall j, (j < bi)%nat -> nth j p 0 < bv) ->
  let k := argmax_from t (length p) bi bv in
  (k < length (p ++ t))%nat /\
  (forall j, (j < length (p ++ t))%nat -> nth j (p ++ t) 0 <= nth k (p ++ t) 0) /\
  (forall j, (j < k)%nat -> nth j (p ++ t) 0 < nth k (p ++ t) 0).
Proof.
  revert p bi bv; induction t as [|x t IH]; intros p bi bv Hbi Hnth Hle Hlt k.
  - subst k; simpl. rewrite app_nil_r. subst bv. auto.
  - subst k; simpl.
    replace (p ++ x :: t) with ((p ++ [x]) ++ t) by (rewrite <- app_assoc; reflexivity).
    assert (Hlen : length (p ++ [x]) = S (length p))
      by (rewrite length_app; simpl; lia).
    destruct (Rlt_dec bv x) as [Hx|Hx].
    + rewrite <- Hlen. apply IH.
      * lia.
      * rewrite nth_middle. reflexivity.
      * intros j Hj. rewrite Hlen in Hj.
        destruct (Nat.eq_dec j (length p)) as [->|Hne].
        -- rewrite nth_middle. lra.
        -- rewrite app_nth1 by lia. specialize (Hle j ltac:(lia)). lra.
      * intros j Hj. rewrite app_nth1 by lia. specialize (Hle j Hj). lra.
    + rewrite <- Hlen. apply IH.
      * lia.
      * rewrite app_nth1 by lia. exact Hnth.
      * intros j Hj. rewrite Hlen in Hj.
        destruct (Nat.eq_dec j (length p)) as [->|Hne].
        -- rewrite nth_middle. lra.
        -- rewrite app_nth1 by lia. apply Hle. lia.
      * intros j Hj. rewrite app_nth1 by lia. apply Hlt. exact Hj.
Qed.

Lemma argmax_spec (l : list R) (k : nat) :
  argmax l = Ok k ->
  (k < length l)%nat /\
  (forall j, (j < length l)%nat -> nth j l 0 <= nth k l 0) /\
  (forall j, (j < k)%nat -> nth j l 0 < nth k l 0).
Proof.
  destruct l as [|x t]; simpl; [discriminate|].
  intros E. injection E as <-.
  apply (argmax_from_spec t [x] 0 x); simpl; auto.
  - intros j Hj. destruct j; [simpl; lra | lia].
  - intros j Hj. lia.
Qed.

(** ** Fundamental-bin lemmas *)

Lemma length_fft (v : list R) : length (fft v) = length v.
Proof. unfold fft. rewrite length_map, length_seq. reflexivity. Qed.

Lemma half_le (n : nat) : (n / 2 <= n)%nat.
Proof. apply Nat.Div0.div_le_upper_bound. lia. Qed.

Lemma length_fft_magnitude (v : list R) :
  length (fft_magnitude v) = (length v / 2)%nat.
Proof.
  unfold fft_magnitude. rewrite length_map, length_firstn, length_fft.
  pose proof (half_le (length v)). lia.
Qed.

Lemma nth_map_lt {A B} (f : A -> B) (l : list A) (j : nat) (d : B) (d' : A) :
  (j < length l)%nat -> nth j (map f l) d = f (nth j l d').
Proof.
  revert j; induction l as [|a l IH]; intros j Hj; simpl in *; [lia|].
  destruct j; [reflexivity|]. apply IH. lia.
Qed.

Lemma nth_fft_magnitude (v : list R) (j : nat) :
  (j < length v / 2)%nat ->
  nth j (fft_magnitude v) 0 = cabs (nth j (fft v) (0, 0)) / INR (length v).
Proof.
  intros Hj. pose proof (half_le (length v)).
  unfold fft_magnitude.
  rewrite (nth_map_lt _ _ _ _ (0, 0))
    by (rewrite length_firstn, length_fft; lia).
  rewrite nth_firstn.
  replace (j <? length v / 2)%nat with true
    by (symmetry; apply Nat.ltb_lt; exact Hj).
  reflexivity.
Qed.

Lemma nth_fft_phase (v : list R) (j : nat) :
  (j < length v / 2)%nat ->
  nth j (fft_phase v) 0 = angle (nth j (fft v) (0, 0)).
Proof.
  intros Hj. pose proof (half_le (length v)).
  unfold fft_phase.
  rewrite (nth_map_lt _ _ _ _ (0, 0))
    by (rewrite length_firstn, length_fft; lia).
  rewrite nth_firstn.
  replace (j <? length v / 2)%nat with true
    by (symmetry; apply Nat.ltb_lt; exact Hj).
  reflexivity.
Qed.

Lemma nth_fft (v : list R) (j : nat) :
  (j < length v)%nat -> nth j (fft v) (0, 0) = dft_sum v 0 j (length v).
Proof.
  intros Hj. unfold fft.
  rewrite (nth_map_lt _ _ _ _ 0%nat) by (rewrite length_seq; exact Hj).
  rewrite seq_nth by exact Hj. reflexivity.
Qed.

Lemma quarter_turn_spec (k : nat) :
  cos (INR k * (PI / 2)) = fst (quarter_turn k) /\
  sin (INR k * (PI / 2)) = snd (quarter_turn k).
Proof.
  induction k as [|k [IHc IHs]].
  - simpl. rewrite Rmult_0_l, cos_0, sin_0. split; reflexivity.
  - rewrite S_INR.
    replace ((INR k + 1) * (PI / 2)) with (INR k * (PI / 2) + PI / 2) by ring.
    rewrite cos_plus, sin_plus, cos_PI2, sin_PI2, IHc, IHs. simpl.
    destruct (quarter_turn k) as [c s]. simpl. split; ring.
Qed.

Ltac quarter_angles :=
  repeat match goal with
         | |- context [2 * PI * INR ?j * INR ?n / INR 8] =>
             let m := eval compute in (Nat.div n 2) in
             let k := eval compute in (Nat.mul j m) in
             replace (2 * PI * INR j * INR n / INR 8) with (INR k * (PI / 2))
               by (simpl; field)
         end;
  repeat match goal with
         | |- context [cos (INR ?k * (PI / 2))] =>
             rewrite (proj1 (quarter_turn_spec k))
         | |- context [sin (INR ?k * (PI / 2))] =>
             rewrite (proj2 (quarter_turn_spec k))
         end.

Lemma quarter_bins :
  dft_sum quarter_voltages 0 1 8 = (0, 0) /\
  dft_sum quarter_voltages 0 2 8 = (4, 0) /\
  dft_sum quarter_voltages 0 3 8 = (0, 0).
Proof.
  unfold quarter_voltages. cbn [dft_sum]. rewrite !Rmult_0_l.
  quarter_angles. simpl. split; [|split]; f_equal; ring.
Qed.

Lemma quarter_magnitudes (j : nat) :
  (1 <= j < 4)%nat ->
  cabs (nth j (fft quarter_voltages) (0, 0)) / INR (length quarter_voltages) =
  if Nat.eqb j 2 then 1 / 2 else 0.
Proof.
  intros Hj. rewrite nth_fft by (simpl; lia).
  change (length quarter_voltages) with 8%nat.
  destruct quarter_bins as [B1 [B2 B3]].
  destruct j as [|[|[|[|j]]]]; try lia; simpl Nat.eqb; [rewrite B1 | rewrite B2 | rewrite B3];
    unfold cabs; simpl fst; simpl snd.
  - rewrite Rmult_0_l, Rplus_0_l, sqrt_0. unfold Rdiv. ring.
  - replace (4 * 4 + 0 * 0) with (4 * 4) by ring.
    rewrite sqrt_square by lra. simpl INR. field.
  - rewrite Rmult_0_l, Rplus_0_l, sqrt_0. unfold Rdiv. ring.
Qed.

(** C6: with at least four samples, the recorded fundamental is the first
    bin of largest magnitude among bins [1, N/2) (magnitudes [|X_k| / N]);
    the magnitude and phase recorded are those of that very bin. *)
Theorem fundamental_is_argmax (v : list R) :
  (4 <= length v)%nat ->
  exists i mag ph,
    fundamental v = Ok (i, mag, ph) /\
    (1 <= i < length v / 2)%nat /\
    mag = cabs (nth i (fft v) (0, 0)) / INR (length v) /\
    ph = angle (nth i (fft v) (0, 0)) /\
    (forall j, (1 <= j < length v / 2)%nat ->
       cabs (nth j (fft v) (0, 0)) / INR (length v) <= mag) /\
    (forall j, (1 <= j < i)%nat ->
       cabs (nth j (fft v) (0, 0)) / INR (length v) < mag).
Proof.
  intros Hlen.
  assert (Hh : (2 <= length v / 2)%nat).
  { pose proof (Nat.Div0.div_le_mono 4 (length v) 2 Hlen) as H4.
    change (4 / 2)%nat with 2%nat in H4. exact H4. }
  pose proof (length_fft_magnitude v) as Hml.
  destruct (fft_magnitude v) as [|m0 [|x t]] eqn:Hm; cbn [length] in Hml; try lia.
  set (k := argmax_from t 1 0 x).
  assert (Ha : argmax (x :: t) = Ok k) by reflexivity.
  destruct (argmax_spec _ _ Ha) as [Hk [Hle Hlt]].
  simpl length in Hk, Hle.
  assert (Hmag : forall j, (j < length v / 2)%nat ->
            cabs (nth j (fft v) (0, 0)) / INR (length v) = nth j (m0 :: x :: t) 0)
    by (intros j Hj; rewrite <- Hm; symmetry; apply nth_fft_magnitude; exact Hj).
  exists (S k), (nth (S k) (m0 :: x :: t) 0), (nth (S k) (fft_phase v) 0).
  split; [unfold fundamental; rewrite Hm; reflexivity|].
  split; [lia|].
  split; [symmetry; apply Hmag; lia|].
  split; [apply nth_fft_phase; lia|].
  split.
  - intros j [Hj1 Hj2]. rewrite Hmag by lia.
    destruct j as [|j]; [lia|]. apply Hle. lia.
  - intros j [Hj1 Hj2]. rewrite Hmag by lia.
    destruct j as [|j]; [lia|]. apply Hlt. lia.
Qed.

Lemma fundamental_is_argmax_witness :
  (4 <= length quarter_voltages)%nat /\
  exists ph, fundamental quarter_voltages = Ok (2%nat, 1 / 2, ph).
Proof.
  assert (L4 : (4 <= length quarter_voltages)%nat) by (simpl; lia).
  split; [exact L4|].
  destruct (fundamental_is_argmax quarter_voltages L4)
    as [i [mag [ph [E [B [Hm [_ [Hle _]]]]]]]].
  assert (L : (length quarter_voltages / 2 = 4)%nat) by reflexivity.
  rewrite L in B, Hle.
  pose proof (Hle 2%nat ltac:(lia)) as H2.
  rewrite quarter_magnitudes in H2 by lia. simpl Nat.eqb in H2.
  rewrite quarter_magnitudes in Hm by exact B.
  destruct (Nat.eqb_spec i 2) as [->|Hi]; [|lra].
  exists ph. rewrite E, Hm. reflexivity.
Defined.

(** ** Running the analysis on concrete captures *)

Lemma rms_of_sample : rms_of sample_voltages = Ok 1.
Proof.
  rewrite rms_of_eq by discriminate.
  assert (Hq : mean_sq sample_voltages = 1)
    by (unfold mean_sq, sum_sq, sample_voltages; simpl; field).
  assert (Hm : mean sample_voltages = 0)
    by (unfold mean, sum_list, sample_voltages; simpl; field).
  rewrite Hq, Hm, sqrt_1. f_equal. ring.
Qed.

Lemma rms_of_dc : rms_of dc_voltages = Ok 0.
Proof.
  rewrite rms_of_eq by discriminate.
  assert (Hq : mean_sq dc_voltages = 1)
    by (unfold mean_sq, sum_sq, dc_voltages; simpl; field).
  assert (Hm : mean dc_voltages = 1)
    by (unfold mean, sum_list, dc_voltages; simpl; field).
  rewrite Hq, Hm, sqrt_1. f_equal. ring.
Qed.

Lemma fundamental_sample :
  fundamental sample_voltages =
  Ok (1%nat, nth 1 (fft_magnitude sample_voltages) 0, sample_phase).
Proof. reflexivity. Qed.

Lemma py_div_nonzero (x y : R) : y <> 0 -> py_div x y = Ok (x / y).
Proof. intros H. unfold py_div. destruct (Req_dec_T y 0); [contradiction | reflexivity]. Qed.

Lemma py_div_zero (x : R) : py_div x 0 = Err ZeroDivisionError.
Proof. unfold py_div. destruct (Req_dec_T 0 0); [reflexivity | congruence]. Qed.

Lemma analyze_sample (freq : R) :
  analyze freq sample_voltages sample_voltages = Ok (sample_record freq).
Proof.
  unfold analyze. rewrite rms_of_sample, fundamental_sample. simpl bind.
  rewrite py_div_nonzero by lra. reflexivity.
Qed.

Lemma measure_sample_read (freq : R) :
  measure sample_read freq = Ok (sample_record freq).
Proof. apply analyze_sample. Qed.

Lemma measure_failing_ok (a freq : R) :
  freq < a -> measure (failing_read a) freq = Ok (sample_record freq).
Proof.
  intros H. unfold measure, failing_read.
  destruct (Rlt_dec freq a); [apply analyze_sample | contradiction].
Qed.

Lemma measure_failing_err (a freq : R) :
  ~ freq < a -> measure (failing_read a) freq = Err AcquisitionError.
Proof.
  intros H. unfold measure, failing_read.
  destruct (Rlt_dec freq a); [contradiction | reflexivity].
Qed.

Lemma analyze_freq (freq : R) (v1 v2 : list R) (r : record) :
  analyze freq v1 v2 = Ok r -> r_freq r = freq.
Proof.
  unfold analyze, bind.
  destruct (rms_of v1); [|discriminate].
  destruct (rms_of v2); [|discriminate].
  destruct (fundamental v1); [|discriminate].
  destruct (fundamental v2); [|discriminate].
  destruct (py_div _ _); [|discriminate].
  intros E. injection E as <-. reflexivity.
Qed.

Lemma analyze_rms (freq : R) (v1 v2 : list R) (r : record) :
  analyze freq v1 v2 = Ok r ->
  rms_of v1 = Ok (r_rms1 r) /\ rms_of v2 = Ok (r_rms2 r).
Proof.
  unfold analyze, bind.
  destruct (rms_of v1); [|discriminate].
  destruct (rms_of v2); [|discriminate].
  destruct (fundamental v1); [|discriminate].
  destruct (fundamental v2); [|discriminate].
  destruct (py_div _ _); [|discriminate].
  intros E. injection E as <-. auto.
Qed.

Lemma measure_freq (sr : scope_reader) (freq : R) (r : record) :
  measure sr freq = Ok r -> r_freq r = freq.
Proof.
  unfold measure, bind. destruct (sr _ freq); [|discriminate].
  apply analyze_freq.
Qed.

(** ** Loop lemmas *)

Lemma sweep_loop_lt (sr : scope_reader) (fstop fstep : R) (fuel : nat)
    (freq : R) (data : list record) :
  freq < fstop ->
  sweep_loop sr fstop fstep (S fuel) freq data =
  match measure sr freq with
  | Ok r => sweep_loop sr fstop fstep fuel (freq * fstep) (data ++ [r])
  | Err e => Some (Some e, data)
  end.
Proof. intros H. simpl. destruct (Rlt_dec freq fstop); [reflexivity | contradiction]. Qed.

Lemma sweep_loop_ge (sr : scope_reader) (fstop fstep : R) (fuel : nat)
    (freq : R) (data : list record) :
  ~ freq < fstop ->
  sweep_loop sr fstop fstep (S fuel) freq data = Some (None, data).
Proof. intros H. simpl. destruct (Rlt_dec freq fstop); [contradiction | reflexivity]. Qed.

Ltac run_loop :=
  repeat first
    [ rewrite sweep_loop_lt by lra
    | rewrite sweep_loop_ge by lra
    | rewrite measure_sample_read
    | rewrite measure_failing_ok by lra
    | rewrite measure_failing_err by lra ].

(** The sweep 100, 200, 400, 800 (stop 1000, ratio 2) with [sample_read]. *)
Lemma run_sample :
  run_program sample_read exit_ok 100 1000 2 5 =
  Some (mk_outcome None sample_rows true (Some sample_rows)).
Proof. unfold run_program. run_loop. reflexivity. Qed.

Lemma sweep_loop_freqs (sr : scope_reader) (fstop fstep : R) (fuel : nat) :
  forall freq data data',
  sweep_loop sr fstop fstep fuel freq data = Some (None, data') ->
  exists rs, data' = data ++ rs /\
    (forall k, (k < length rs)%nat -> nth k (map r_freq rs) 0 = freq * fstep ^ k) /\
    Forall (fun r => r_freq r < fstop) rs /\
    fstop <= freq * fstep ^ length rs.
Proof.
  induction fuel as [|fuel IH]; intros freq data data' Hrun; [discriminate|].
  destruct (Rlt_dec freq fstop) as [Hlt|Hge].
  - rewrite sweep_loop_lt in Hrun by exact Hlt.
    destruct (measure sr freq) as [r|e] eqn:Hm; [|discriminate].
    pose proof (measure_freq _ _ _ Hm) as Hf.
    destruct (IH _ _ _ Hrun) as [rs [-> [Hnth [Hall Hend]]]].
    exists (r :: rs). split; [rewrite <- app_assoc; reflexivity|].
    split; [|split].
    + intros [|k] Hk; simpl.
      * rewrite Hf. ring.
      * rewrite Hnth by (simpl in Hk; lia). ring.
    + constructor; [lra | exact Hall].
    + simpl. replace (freq * (fstep * fstep ^ length rs))
        with (freq * fstep * fstep ^ length rs) by ring. exact Hend.
  - rewrite sweep_loop_ge in Hrun by exact Hge.
    injection Hrun as <-. exists []. rewrite app_nil_r.
    split; [reflexivity|]. split; [intros k Hk; simpl in Hk; lia|].
    split; [constructor|]. simpl. lra.
Qed.

Lemma after_loop_data (io : exit_io) (data : list record) :
  data_at_exit (after_loop io data) = data.
Proof.
  unfold after_loop.
  destruct (close_handle io), (sinewave_stop io), (write_csv io data); reflexivity.
Qed.

Lemma after_loop_csv (io : exit_io) (data rows : list record) :
  csv_rows (after_loop io data) = Some rows ->
  rows = data /\ scope_closed (after_loop io data) = true /\
  raised (after_loop io data) =
    match data with [] => Some IndexError | _ => None end.
Proof.
  unfold after_loop.
  destruct (close_handle io), (sinewave_stop io), (write_csv io data);
    simpl; try discriminate.
  intros E; injection E as ->. auto.
Qed.

Lemma run_program_data (sr : scope_reader) (io : exit_io) (fstart fstop fstep : R)
    (fuel : nat) (o : outcome) :
  run_program sr io fstart fstop fstep fuel = Some o ->
  exists x, sweep_loop sr fstop fstep fuel fstart [] = Some (x, data_at_exit o).
Proof.
  unfold run_program.
  destruct (sweep_loop sr fstop fstep fuel fstart []) as [[[e|] data]|];
    intros E; try discriminate; injection E as <-; eauto.
  rewrite after_loop_data. eauto.
Qed.

Lemma run_program_csv (sr : scope_reader) (io : exit_io) (fstart fstop fstep : R)
    (fuel : nat) (o : outcome) (rows : list record) :
  run_program sr io fstart fstop fstep fuel = Some o -> csv_rows o = Some rows ->
  sweep_loop sr fstop fstep fuel fstart [] = Some (None, rows).
Proof.
  unfold run_program.
  destruct (sweep_loop sr fstop fstep fuel fstart []) as [[[e|] data]|];
    intros E; try discriminate; injection E as <-; simpl; [discriminate|].
  intros E. destruct (after_loop_csv _ _ _ E) as [-> _]. reflexivity.
Qed.

(** ** C2: the recorded frequencies *)

(** C2: for [0 < fstart < fstop] and [fstep > 1], the frequencies of the rows
    written to the CSV file are [fstart * fstep ^ k] for [k = 0, 1, ...],
    strictly increasing, all below [fstop], and the next one,
    [fstart * fstep ^ (number of rows)], is at least [fstop]. *)
Theorem sweep_frequencies_geometric (sr : scope_reader) (io : exit_io)
    (fstart fstop fstep : R)
    (fuel : nat) (o : outcome) (rows : list record) :
  0 < fstart -> fstart < fstop -> 1 < fstep ->
  run_program sr io fstart fstop fstep fuel = Some o -> csv_rows o = Some rows ->
  (forall k, (k < length rows)%nat -> nth k (map r_freq rows) 0 = fstart * fstep ^ k) /\
  (forall k, (S k < length rows)%nat ->
     nth k (map r_freq rows) 0 < nth (S k) (map r_freq rows) 0) /\
  Forall (fun r => r_freq r < fstop) rows /\
  fstop <= fstart * fstep ^ length rows.
Proof.
  intros Hs _ Hr Hrun Hcsv.
  pose proof (run_program_csv _ _ _ _ _ _ _ _ Hrun Hcsv) as Hloop.
  destruct (sweep_loop_freqs _ _ _ _ _ _ _ Hloop) as [rs [Hrs [Hnth [Hall Hend]]]].
  simpl in Hrs. subst rs.
  split; [exact Hnth|]. split; [|split; assumption].
  intros k Hk. rewrite !Hnth by lia. simpl.
  pose proof (pow_lt fstep k ltac:(lra)) as Hp.
  assert (0 < fstart * fstep ^ k) by (apply Rmult_lt_0_compat; assumption).
  nra.
Qed.

Lemma sweep_frequencies_geometric_witness :
  (0 < 100 /\ 100 < 1000 /\ 1 < 2) /\
  (forall k, (k < length sample_rows)%nat ->
     nth k (map r_freq sample_rows) 0 = 100 * 2 ^ k).
Proof.
  split; [lra|].
  apply (sweep_frequencies_geometric sample_read exit_ok 100 1000 2 5
           (mk_outcome None sample_rows true (Some sample_rows)) sample_rows);
    [lra | lra | lra | exact run_sample | reflexivity].
Defined.

(** ** C5: stored RMS values are non-negative *)

Lemma sweep_loop_records (sr : scope_reader) (P : record -> Prop)
    (fstop fstep : R) :
  (forall freq r, measure sr freq = Ok r -> P r) ->
  forall fuel freq data x data',
  Forall P data -> sweep_loop sr fstop fstep fuel freq data = Some (x, data') ->
  Forall P data'.
Proof.
  intros HP fuel; induction fuel as [|fuel IH]; intros freq data x data' Hd Hrun;
    [discriminate|].
  simpl in Hrun. destruct (Rlt_dec freq fstop) as [Hlt|Hge].
  - destruct (measure sr freq) as [r|e] eqn:Hm.
    + refine (IH _ _ _ _ _ Hrun).
      apply Forall_app. split; [exact Hd|]. constructor; [exact (HP _ _ Hm) | constructor].
    + injection Hrun as _ <-. exact Hd.
  - injection Hrun as _ <-. exact Hd.
Qed.

(** C5: in every run, every record in [data] (hence every CSV row) has
    non-negative [rms1] and [rms2]. *)
Theorem stored_rms_nonneg (sr : scope_reader) (io : exit_io) (fstart fstop fstep : R)
    (fuel : nat) (o : outcome) :
  run_program sr io fstart fstop fstep fuel = Some o ->
  Forall (fun r => 0 <= r_rms1 r /\ 0 <= r_rms2 r) (data_at_exit o).
Proof.
  intros Hrun. unfold run_program in Hrun.
  destruct (sweep_loop sr fstop fstep fuel fstart []) as [[x data]|] eqn:Hl;
    [|discriminate].
  assert (Hd : Forall (fun r => 0 <= r_rms1 r /\ 0 <= r_rms2 r) data).
  { refine (sweep_loop_records sr _ fstop fstep _ fuel fstart [] x data
              (Forall_nil _) Hl).
    intros freq r Hm. unfold measure, bind in Hm.
    destruct (sr _ freq) as [vs|]; [|discriminate].
    destruct (analyze_rms _ _ _ _ Hm) as [H1 H2].
    split; eapply rms_of_nonneg; eassumption. }
  destruct x; injection Hrun as <-; [exact Hd | rewrite after_loop_data; exact Hd].
Qed.

Lemma stored_rms_nonneg_witness :
  run_program sample_read exit_ok 100 1000 2 5 =
    Some (mk_outcome None sample_rows true (Some sample_rows)) /\
  Forall (fun r => 0 <= r_rms1 r /\ 0 <= r_rms2 r) sample_rows.
Proof.
  split; [exact run_sample|].
  exact (stored_rms_nonneg sample_read exit_ok 100 1000 2 5 _ run_sample).
Defined.

(** ** C3: the RMS formula *)

(** C3: for a non-empty voltage list the reported RMS is
    [sqrt(mean(v^2)) - mean(v)], both in [rms_of] and in the record built
    by [analyze]; it differs from the AC RMS [sqrt(mean((v - mean v)^2))]
    (for [v = [7; 1]]: 1 against 3). *)
Theorem rms_is_raw_rms_minus_dc :
  (forall v, v <> [] -> rms_of v = Ok (sqrt (mean_sq v) - mean v)) /\
  (forall freq v1 v2 r, analyze freq v1 v2 = Ok r ->
     r_rms1 r = sqrt (mean_sq v1) - mean v1 /\
     r_rms2 r = sqrt (mean_sq v2) - mean v2) /\
  (exists v, v <> [] /\ rms_of v <> Ok (ac_rms v)).
Proof.
  split; [exact rms_of_eq|]. split.
  - intros freq v1 v2 r Ha. destruct (analyze_rms _ _ _ _ Ha) as [H1 H2].
    destruct v1 as [|x1 t1]; [rewrite rms_of_nil in H1; discriminate|].
    destruct v2 as [|x2 t2]; [rewrite rms_of_nil in H2; discriminate|].
    rewrite rms_of_eq in H1, H2 by discriminate.
    injection H1 as H1. injection H2 as H2. auto.
  - exists [7; 1]. split; [discriminate|].
    rewrite rms_of_eq by discriminate. intros E. injection E as E.
    assert (Hq : mean_sq [7; 1] = 5 * 5)
      by (unfold mean_sq, sum_sq; simpl; field).
    assert (Hm : mean [7; 1] = 4) by (unfold mean, sum_list; simpl; field).
    unfold ac_rms in E. rewrite Hq, Hm, sqrt_square in E by lra.
    replace (fold_right (fun x acc => (x - 4) * (x - 4) + acc) 0 [7; 1]
               / INR (length [7; 1])) with (3 * 3) in E by (simpl; field).
    rewrite sqrt_square in E by lra. lra.
Qed.

Lemma rms_is_raw_rms_minus_dc_witness :
  rms_of sample_voltages = Ok (sqrt (mean_sq sample_voltages) - mean sample_voltages).
Proof.
  destruct rms_is_raw_rms_minus_dc as [H _]. apply H. discriminate.
Defined.

(** ** C7: zero reference RMS *)

Lemma fundamental_ok (v : list R) :
  (4 <= length v)%nat -> exists f, fundamental v = Ok f.
Proof.
  intros Hlen.
  assert (Hh : (2 <= length v / 2)%nat).
  { pose proof (Nat.Div0.div_le_mono 4 (length v) 2 Hlen) as H4.
    change (4 / 2)%nat with 2%nat in H4. exact H4. }
  pose proof (length_fft_magnitude v) as Hml.
  destruct (fft_magnitude v) as [|m0 [|x t]] eqn:Hm; cbn [length] in Hml; try lia.
  unfold fundamental. rewrite Hm. eexists. reflexivity.
Qed.

(** C7: when the reference channel's RMS is 0 the step produces no record;
    with captures of at least four samples it raises [ZeroDivisionError]
    at [rms1/rms2]. *)
Theorem zero_reference_rms_raises (freq : R) (v1 v2 : list R) :
  rms_of v2 = Ok 0 ->
  (forall r, analyze freq v1 v2 <> Ok r) /\
  ((4 <= length v1)%nat -> (4 <= length v2)%nat ->
     analyze freq v1 v2 = Err ZeroDivisionError).
Proof.
  intros H2. unfold analyze. rewrite H2. split.
  - intros r. unfold bind.
    destruct (rms_of v1); [|discriminate].
    destruct (fundamental v1); [|discriminate].
    destruct (fundamental v2); [|discriminate].
    rewrite py_div_zero. discriminate.
  - intros L1 L2.
    destruct v1 as [|x t]; [simpl in L1; lia|].
    rewrite rms_of_eq by discriminate.
    destruct (fundamental_ok _ L1) as [f1 ->].
    destruct (fundamental_ok _ L2) as [f2 ->].
    simpl bind. rewrite py_div_zero. reflexivity.
Qed.

Lemma zero_reference_rms_raises_witness :
  rms_of dc_voltages = Ok 0 /\
  analyze 100 sample_voltages dc_voltages = Err ZeroDivisionError.
Proof.
  split; [exact rms_of_dc|].
  apply (zero_reference_rms_raises 100 sample_voltages dc_voltages rms_of_dc);
    simpl; lia.
Defined.

(** ** C8: unchecked sweep bounds *)

Lemma sweep_loop_never_done (sr : scope_reader) (fstart fstop fstep : R) :
  0 < fstart < fstop -> 0 <= fstep <= 1 ->
  forall fuel freq data x data',
  0 <= freq <= fstart ->
  sweep_loop sr fstop fstep fuel freq data = Some (x, data') -> x <> None.
Proof.
  intros Hs Hr fuel; induction fuel as [|fuel IH];
    intros freq data x data' Hf Hrun; [discriminate|].
  rewrite sweep_loop_lt in Hrun by lra.
  destruct (measure sr freq) as [r|e].
  - apply (IH (freq * fstep) (data ++ [r]) x data'); [nra | exact Hrun].
  - injection Hrun as <- _. discriminate.
Qed.

Lemma sample_read_step_one (fuel : nat) (data : list record) :
  sweep_loop sample_read 1000 1 fuel 100 data = None.
Proof.
  revert data; induction fuel as [|fuel IH]; intros data; [reflexivity|].
  rewrite sweep_loop_lt by lra. rewrite measure_sample_read, Rmult_1_r. apply IH.
Qed.

(** C8 (as stated) fails: nothing checks the bounds. With [fstop <= fstart]
    (and closing calls that succeed) the run closes the scope, writes a CSV
    file with no rows and raises [IndexError] while plotting; with
    [fstep = 1] the loop never ends. *)
Lemma sweep_bounds_counterexample :
  run_program sample_read exit_ok 100 50 2 1 =
    Some (mk_outcome (Some IndexError) [] true (Some [])) /\
  (forall fuel, run_program sample_read exit_ok 100 1000 1 fuel = None).
Proof.
  split.
  - unfold run_program. rewrite sweep_loop_ge by lra. reflexivity.
  - intros fuel. unfold run_program. rewrite sample_read_step_one. reflexivity.
Qed.

(** C8 (amended): no bounds are validated. With [fstop <= fstart] the loop
    body never runs and the script goes on to the closing calls with no
    record; it always ends with an exception: [IndexError] from the plot
    when closing the scope, stopping the generator and writing the CSV file
    (header only) succeed, otherwise the exception of the failing call (for
    an unwritable [--filename]: the scope is closed, no CSV file, the error
    of [open]). With [0 < fstart < fstop] and [0 <= fstep <= 1] the loop
    never exits normally: any finished run ended by an exception from a
    step, with the scope left open and no CSV file. *)
Theorem sweep_bounds_unchecked (sr : scope_reader) (io : exit_io)
    (fstart fstop fstep : R) :
  (fstop <= fstart -> forall fuel,
     run_program sr io fstart fstop fstep (S fuel) = Some (after_loop io []) /\
     data_at_exit (after_loop io []) = [] /\
     (exists e, raised (after_loop io []) = Some e) /\
     (close_handle io = Ok tt -> sinewave_stop io = Ok tt -> write_csv io [] = Ok tt ->
        after_loop io [] = mk_outcome (Some IndexError) [] true (Some [])) /\
     (forall e, close_handle io = Ok tt -> sinewave_stop io = Ok tt ->
        write_csv io [] = Err e ->
        after_loop io [] = mk_outcome (Some e) [] true None)) /\
  (0 < fstart < fstop -> 0 <= fstep <= 1 -> forall fuel o,
     run_program sr io fstart fstop fstep fuel = Some o ->
     (exists e, raised o = Some e) /\ scope_closed o = false /\ csv_rows o = None).
Proof.
  split.
  - intros Hle fuel.
    split; [unfold run_program; rewrite sweep_loop_ge by lra; reflexivity|].
    split; [apply after_loop_data|].
    unfold after_loop.
    split; [destruct (close_handle io), (sinewave_stop io), (write_csv io []);
            simpl; eauto|].
    split.
    + intros -> -> ->. reflexivity.
    + intros e -> -> ->. reflexivity.
  - intros Hs Hr fuel o Hrun. unfold run_program in Hrun.
    destruct (sweep_loop sr fstop fstep fuel fstart []) as [[x data]|] eqn:Hl;
      [|discriminate].
    pose proof (sweep_loop_never_done sr fstart fstop fstep Hs Hr fuel fstart []
                  x data ltac:(lra) Hl) as Hx.
    destruct x as [e|]; [|contradiction].
    injection Hrun as <-. simpl. eauto.
Qed.

Lemma sweep_bounds_unchecked_witness :
  (run_program sample_read exit_ok 100 50 2 1 =
     Some (mk_outcome (Some IndexError) [] true (Some [])) /\
   run_program sample_read exit_csv_fails 100 50 2 1 =
     Some (mk_outcome (Some OSError) [] true None)) /\
  (run_program (failing_read 0) exit_ok 100 1000 1 1 =
     Some (mk_outcome (Some AcquisitionError) [] false None) /\
   ((exists e, raised (mk_outcome (Some AcquisitionError) [] false None) = Some e) /\
    scope_closed (mk_outcome (Some AcquisitionError) [] false None) = false /\
    csv_rows (mk_outcome (Some AcquisitionError) [] false None) = None)).
Proof.
  destruct (sweep_bounds_unchecked sample_read exit_ok 100 50 2) as [Hok _].
  destruct (Hok ltac:(lra) 0%nat) as [E1 [_ [_ [E2 _]]]].
  destruct (sweep_bounds_unchecked sample_read exit_csv_fails 100 50 2) as [Hfail _].
  destruct (Hfail ltac:(lra) 0%nat) as [E3 [_ [_ [_ E4]]]].
  destruct (sweep_bounds_unchecked (failing_read 0) exit_ok 100 1000 1) as [_ Hloop].
  assert (E5 : run_program (failing_read 0) exit_ok 100 1000 1 1 =
                 Some (mk_outcome (Some AcquisitionError) [] false None))
    by (unfold run_program; rewrite sweep_loop_lt by lra;
        rewrite measure_failing_err by lra; reflexivity).
  split; split.
  - rewrite E1, E2 by reflexivity. reflexivity.
  - rewrite E3, (E4 OSError) by reflexivity. reflexivity.
  - exact E5.
  - exact (Hloop ltac:(lra) ltac:(lra) 1%nat _ E5).
Defined.

(** ** C9: termination *)

Lemma sweep_loop_terminates (sr : scope_reader) (fstop fstep : R) :
  1 < fstep ->
  forall n freq data, 0 < freq -> fstop <= freq * fstep ^ n ->
  exists res, sweep_loop sr fstop fstep (S n) freq data = Some res.
Proof.
  intros Hr n; induction n as [|n IH]; intros freq data Hf Hend.
  - rewrite sweep_loop_ge by (simpl in Hend; lra). eauto.
  - destruct (Rlt_dec freq fstop) as [Hlt|Hge].
    + rewrite sweep_loop_lt by exact Hlt.
      destruct (measure sr freq) as [r|e]; [|eauto].
      apply IH; [nra|]. simpl in Hend.
      replace (freq * fstep * fstep ^ n) with (freq * (fstep * fstep ^ n)) by ring.
      exact Hend.
    + rewrite sweep_loop_ge by exact Hge. eauto.
Qed.

(** C9: for [fstart > 0] and [fstep > 1] some power [fstart * fstep ^ N]
    reaches [fstop], and the script finishes (normally or by an exception
    from a step) after finitely many loop tests, whatever the hardware does. *)
Theorem sweep_terminates (sr : scope_reader) (io : exit_io) (fstart fstop fstep : R) :
  0 < fstart -> 1 < fstep ->
  (exists N, fstop <= fstart * fstep ^ N) /\
  (exists fuel o, run_program sr io fstart fstop fstep fuel = Some o).
Proof.
  intros Hs Hr.
  assert (HN : exists N, fstop <= fstart * fstep ^ N).
  { destruct (Pow_x_infinity fstep ltac:(rewrite Rabs_pos_eq; lra) (fstop / fstart))
      as [N HN].
    exists N. specialize (HN N (Nat.le_refl N)).
    rewrite Rabs_pos_eq in HN by (apply pow_le; lra).
    replace fstop with (fstart * (fstop / fstart)) at 1 by (field; lra).
    apply Rmult_le_compat_l; lra. }
  split; [exact HN|].
  destruct HN as [N HN].
  destruct (sweep_loop_terminates sr fstop fstep Hr N fstart [] Hs HN) as [[x data] E].
  exists (S N). unfold run_program. rewrite E.
  destruct x; eauto.
Qed.

Lemma sweep_terminates_witness :
  (0 < 100 /\ 1 < 2) /\
  exists fuel o, run_program sample_read exit_ok 100 1000 2 fuel = Some o.
Proof.
  split; [lra|].
  apply (sweep_terminates sample_read exit_ok 100 1000 2); lra.
Defined.

(** ** C10: a failing step *)

(** C10 (as stated) fails: the acquisition raises on the third step of the
    sweep 100, 200, 400, ... (stop 3200); two records had been accumulated
    in [data], but the exception ends the script before the CSV write, so
    nothing is persisted and the scope is not closed. *)
Lemma failing_step_counterexample :
  run_program (failing_read 400) exit_ok 100 3200 2 6 =
    Some (mk_outcome (Some AcquisitionError)
            [sample_record 100; sample_record (100 * 2)] false None).
Proof. unfold run_program. run_loop. reflexivity. Qed.

(** C10 (amended): a step that raises ends the loop at once with that
    exception, keeping the records accumulated so far in [data]; the
    exception then ends the script, so the scope is not closed and no CSV
    file is written. *)
Theorem failing_step_aborts (sr : scope_reader) (io : exit_io) (fstart fstop fstep : R) :
  (forall fuel freq data e, freq < fstop -> measure sr freq = Err e ->
     sweep_loop sr fstop fstep (S fuel) freq data = Some (Some e, data)) /\
  (forall fuel e data,
     sweep_loop sr fstop fstep fuel fstart [] = Some (Some e, data) ->
     run_program sr io fstart fstop fstep fuel =
       Some (mk_outcome (Some e) data false None)).
Proof.
  split.
  - intros fuel freq data e Hlt Hm. rewrite sweep_loop_lt by exact Hlt.
    rewrite Hm. reflexivity.
  - intros fuel e data Hl. unfold run_program. rewrite Hl. reflexivity.
Qed.

Lemma failing_step_aborts_witness :
  sweep_loop (failing_read 400) 3200 2 1 400 [sample_record 100] =
    Some (Some AcquisitionError, [sample_record 100]).
Proof.
  destruct (failing_step_aborts (failing_read 400) exit_ok 100 3200 2) as [H _].
  apply H; [lra|]. apply measure_failing_err. lra.
Defined.

(** * Further properties of the script *)

(** ** Sample-rate ID and monotonicity of the selection *)

Lemma select_samplerate_in (freq : R) : In (select_samplerate freq) samplerates.
Proof.
  rewrite select_samplerate_eq. unfold first_at_least.
  destruct (find _ samplerates) as [x|] eqn:F.
  - exact (proj1 (find_some _ _ F)).
  - simpl; tauto.
Qed.

Lemma sample_id_table :
  map sample_id samplerates = [102; 103; 105; 106; 110; 113; 120; 150;
                               1; 2; 4; 8; 10]%Z.
Proof. reflexivity. Qed.

Ltac eval_sample_id :=
  repeat match goal with
         | |- context [sample_id ?x] =>
             let v := eval vm_compute in (sample_id x) in
             change (sample_id x) with v
         end.

(** X1: the device rate ID sent to the scope for the selected rate is in
    102..150 when that rate is below 1000k and in 1..10 when it is 1000k or
    more, and two frequencies get the same ID only when they get the same
    rate. *)
Theorem sample_id_of_selected_rate (freq1 freq2 : R) :
  ((select_samplerate freq1 < 1000)%Z ->
     (102 <= sample_id (select_samplerate freq1) <= 150)%Z) /\
  ((1000 <= select_samplerate freq1)%Z ->
     (1 <= sample_id (select_samplerate freq1) <= 10)%Z) /\
  (sample_id (select_samplerate freq1) = sample_id (select_samplerate freq2) ->
   select_samplerate freq1 = select_samplerate freq2).
Proof.
  pose proof (select_samplerate_in freq1) as H1.
  pose proof (select_samplerate_in freq2) as H2.
  unfold samplerates in H1, H2.
  split; [|split].
  - repeat destruct H1 as [<-|H1]; try contradiction; eval_sample_id; lia.
  - repeat destruct H1 as [<-|H1]; try contradiction; eval_sample_id; lia.
  - repeat destruct H1 as [<-|H1]; try contradiction;
      repeat destruct H2 as [<-|H2]; try contradiction;
      eval_sample_id; first [reflexivity | discriminate].
Qed.

(** X2: the selected rate never decreases as the frequency grows. *)
Theorem select_samplerate_monotone (freq1 freq2 : R) :
  freq1 <= freq2 -> (select_samplerate freq1 <= select_samplerate freq2)%Z.
Proof.
  intros Hle. rewrite !select_samplerate_eq.
  unfold first_at_least.
  set (p1 := fun e => if Rle_dec (4 * freq1) (IZR e) then true else false).
  set (p2 := fun e => if Rle_dec (4 * freq2) (IZR e) then true else false).
  destruct (find p2 samplerates) as [x2|] eqn:F2.
  - destruct (find_some _ _ F2) as [Hin2 Hp2].
    unfold p2 in Hp2. destruct (Rle_dec (4 * freq2) (IZR x2)) as [Hx2|]; [|discriminate].
    assert (Hp1 : p1 x2 = true)
      by (unfold p1; destruct (Rle_dec (4 * freq1) (IZR x2)); [reflexivity | lra]).
    destruct (find p1 samplerates) as [x1|] eqn:F1.
    + exact (find_sorted_min p1 samplerates x1 samplerates_sorted F1 x2 Hin2 Hp1).
    + pose proof (find_none _ _ F1 x2 Hin2). congruence.
  - destruct (find p1 samplerates) as [x1|] eqn:F1; [|lia].
    pose proof (proj1 (find_some _ _ F1)) as Hin.
    unfold samplerates in Hin. repeat destruct Hin as [<-|Hin]; try lia.
    contradiction.
Qed.

Lemma select_samplerate_monotone_witness :
  (10 <= 100) /\ (select_samplerate 10 <= select_samplerate 100)%Z.
Proof.
  split; [lra|]. apply select_samplerate_monotone. lra.
Defined.

(** ** RMS of a constant capture *)

Lemma sums_repeat (c : R) (n : nat) :
  sum_list (repeat c n) = INR n * c /\ sum_sq (repeat c n) = INR n * (c * c).
Proof.
  induction n as [|n [IH1 IH2]]; [simpl; split; ring|].
  change (repeat c (S n)) with (c :: repeat c n).
  change (sum_list (c :: repeat c n)) with (c + sum_list (repeat c n)).
  change (sum_sq (c :: repeat c n)) with (c * c + sum_sq (repeat c n)).
  rewrite IH1, IH2, S_INR. split; ring.
Qed.

Lemma rms_of_repeat (c : R) (n : nat) :
  (1 <= n)%nat -> rms_of (repeat c n) = Ok (Rabs c - c).
Proof.
  intros Hn. rewrite rms_of_eq by (destruct n; [lia | discriminate]).
  destruct (sums_repeat c n) as [H1 H2].
  assert (Hpos : 0 < INR n) by (apply lt_0_INR; lia).
  unfold mean_sq, mean. rewrite repeat_length, H1, H2.
  replace (INR n * (c * c) / INR n) with (Rsqr c) by (unfold Rsqr; field; lra).
  replace (INR n * c / INR n) with c by (field; lra).
  rewrite sqrt_Rsqr_abs. reflexivity.
Qed.

(** X3: a capture holding one constant value [c] (a pure DC signal) reports
    RMS [|c| - c]: 0 for [c >= 0], but [-2c > 0] for a negative offset. *)
Theorem rms_of_constant_capture (c : R) (n : nat) :
  (1 <= n)%nat ->
  rms_of (repeat c n) = Ok (Rabs c - c) /\
  (0 <= c -> rms_of (repeat c n) = Ok 0) /\
  (c < 0 -> rms_of (repeat c n) = Ok (-2 * c)).
Proof.
  intros Hn. rewrite rms_of_repeat by exact Hn.
  split; [reflexivity|]. split.
  - intros Hc. rewrite Rabs_pos_eq by exact Hc. f_equal. ring.
  - intros Hc. rewrite Rabs_left by exact Hc. f_equal. ring.
Qed.

Lemma rms_of_constant_capture_witness :
  (1 <= 4)%nat /\ rms_of (repeat (-1) 4) = Ok (-2 * -1).
Proof.
  split; [lia|].
  destruct (rms_of_constant_capture (-1) 4 ltac:(lia)) as [_ [_ H]].
  apply H. lra.
Defined.

(** ** Short captures *)

Lemma fundamental_short (v : list R) :
  (length v < 4)%nat -> fundamental v = Err ValueError.
Proof.
  intros Hlen.
  assert (Hh : (length v / 2 <= 1)%nat).
  { pose proof (Nat.Div0.div_le_mono (length v) 3 2 ltac:(lia)) as H3.
    change (3 / 2)%nat with 1%nat in H3. exact H3. }
  pose proof (length_fft_magnitude v) as Hml.
  unfold fundamental.
  destruct (fft_magnitude v) as [|m0 [|x t]]; cbn [length] in Hml; try lia;
    reflexivity.
Qed.

(** X4: for non-empty captures, the analysis raises [ValueError] (from
    [np.argmax] of an empty bin range) exactly when a channel has fewer than
    four samples. *)
Theorem analyze_value_error_iff_short (freq : R) (v1 v2 : list R) :
  v1 <> [] -> v2 <> [] ->
  ((length v1 < 4)%nat \/ (length v2 < 4)%nat <->
   analyze freq v1 v2 = Err ValueError).
Proof.
  intros H1 H2. unfold analyze.
  rewrite (rms_of_eq v1 H1), (rms_of_eq v2 H2). simpl bind.
  split.
  - intros [L|L].
    + rewrite fundamental_short by exact L. reflexivity.
    + destruct (Nat.lt_ge_cases (length v1) 4) as [L1|L1].
      * rewrite fundamental_short by exact L1. reflexivity.
      * destruct (fundamental_ok _ L1) as [f1 ->]. simpl bind.
        rewrite fundamental_short by exact L. reflexivity.
  - intros E.
    destruct (Nat.lt_ge_cases (length v1) 4) as [L1|L1]; [left; exact L1|].
    destruct (Nat.lt_ge_cases (length v2) 4) as [L2|L2]; [right; exact L2|].
    exfalso.
    destruct (fundamental_ok _ L1) as [f1 E1]. destruct (fundamental_ok _ L2) as [f2 E2].
    rewrite E1, E2 in E. simpl bind in E. unfold py_div in E.
    destruct (Req_dec_T _ 0); discriminate.
Qed.

Lemma analyze_value_error_iff_short_witness :
  ([1] <> [] /\ sample_voltages <> []) /\
  analyze 100 [1] sample_voltages = Err ValueError.
Proof.
  split; [split; discriminate|].
  apply (analyze_value_error_iff_short 100 [1] sample_voltages);
    [discriminate | discriminate | left; simpl; lia].
Defined.

(** ** Record invariants over a whole run *)

Lemma measure_analyze (sr : scope_reader) (freq : R) (r : record) :
  measure sr freq = Ok r -> exists v1 v2, analyze freq v1 v2 = Ok r.
Proof.
  unfold measure, bind. destruct (sr _ freq) as [[v1 v2]|]; [|discriminate].
  intros E. exists v1, v2. exact E.
Qed.

Lemma data_at_exit_records (sr : scope_reader) (io : exit_io) (P : record -> Prop)
    (fstart fstop fstep : R) (fuel : nat) (o : outcome) :
  (forall freq v1 v2 r, analyze freq v1 v2 = Ok r -> P r) ->
  run_program sr io fstart fstop fstep fuel = Some o ->
  Forall P (data_at_exit o).
Proof.
  intros HP Hrun. unfold run_program in Hrun.
  destruct (sweep_loop sr fstop fstep fuel fstart []) as [[x data]|] eqn:Hl;
    [|discriminate].
  assert (Hd : Forall P data).
  { refine (sweep_loop_records sr P fstop fstep _ fuel fstart [] x data
              (Forall_nil _) Hl).
    intros freq r Hm. destruct (measure_analyze _ _ _ Hm) as [v1 [v2 Ha]].
    exact (HP _ _ _ _ Ha). }
  destruct x; injection Hrun as <-; [exact Hd | rewrite after_loop_data; exact Hd].
Qed.

Lemma analyze_gain (freq : R) (v1 v2 : list R) (r : record) :
  analyze freq v1 v2 = Ok r -> r_rms2 r <> 0 /\ r_gain r = r_rms1 r / r_rms2 r.
Proof.
  unfold analyze, bind.
  destruct (rms_of v1); [|discriminate].
  destruct (rms_of v2); [|discriminate].
  destruct (fundamental v1); [|discriminate].
  destruct (fundamental v2); [|discriminate].
  unfold py_div. destruct (Req_dec_T _ 0) as [|Hne]; [discriminate|].
  intros E. injection E as <-. simpl. auto.
Qed.

(** X5: every record a run leaves in [data] (hence every CSV row) has a
    strictly positive reference RMS [rms2], a non-negative gain, and
    [gain * rms2 = rms1]. *)
Theorem stored_gain_consistent (sr : scope_reader) (io : exit_io) (fstart fstop fstep : R)
    (fuel : nat) (o : outcome) :
  run_program sr io fstart fstop fstep fuel = Some o ->
  Forall (fun r => 0 < r_rms2 r /\ 0 <= r_gain r /\ r_gain r * r_rms2 r = r_rms1 r)
    (data_at_exit o).
Proof.
  apply data_at_exit_records. intros freq v1 v2 r Ha.
  destruct (analyze_gain _ _ _ _ Ha) as [Hne Hg].
  destruct (analyze_rms _ _ _ _ Ha) as [H1 H2].
  apply rms_of_nonneg in H1. apply rms_of_nonneg in H2.
  assert (Hpos : 0 < r_rms2 r) by lra.
  split; [exact Hpos|]. rewrite Hg. split.
  - unfold Rdiv. apply Rmult_le_pos; [exact H1|].
    left. apply Rinv_0_lt_compat. exact Hpos.
  - field. lra.
Qed.

Lemma stored_gain_consistent_witness :
  run_program sample_read exit_ok 100 1000 2 5 =
    Some (mk_outcome None sample_rows true (Some sample_rows)) /\
  Forall (fun r => 0 < r_rms2 r /\ 0 <= r_gain r /\ r_gain r * r_rms2 r = r_rms1 r)
    sample_rows.
Proof.
  split; [exact run_sample|].
  exact (stored_gain_consistent sample_read exit_ok 100 1000 2 5 _ run_sample).
Defined.

(** ** Phase range *)

Lemma atan_nonpos (z : R) : z <= 0 -> atan z <= 0.
Proof.
  intros Hz. destruct (Req_dec_T z 0) as [->|Hne]; [rewrite atan_0; lra|].
  left. rewrite <- atan_0. apply atan_increasing. lra.
Qed.

Lemma atan_pos (z : R) : 0 < z -> 0 < atan z.
Proof. intros Hz. rewrite <- atan_0. apply atan_increasing. exact Hz. Qed.

Lemma atan2_range (y x : R) : - PI < atan2 y x <= PI.
Proof.
  pose proof PI_RGT_0 as Hpi. unfold atan2.
  destruct (Rlt_dec 0 x) as [Hx|Hx].
  - pose proof (atan_bound (y / x)). lra.
  - destruct (Rlt_dec x 0) as [Hx'|Hx'].
    + assert (Hinv : / x < 0) by (apply Rinv_lt_0_compat; exact Hx').
      pose proof (atan_bound (y / x)).
      destruct (Rle_dec 0 y) as [Hy|Hy].
      * assert (y / x <= 0) by (unfold Rdiv; nra).
        pose proof (atan_nonpos (y / x) ltac:(assumption)). lra.
      * assert (0 < y / x) by (unfold Rdiv; nra).
        pose proof (atan_pos (y / x) ltac:(assumption)). lra.
    + destruct (Rlt_dec 0 y); [lra|].
      destruct (Rlt_dec y 0); lra.
Qed.

Lemma nth_fft_phase_range (v : list R) (j : nat) :
  - PI < nth j (fft_phase v) 0 <= PI.
Proof.
  pose proof PI_RGT_0.
  destruct (Nat.lt_ge_cases j (length (fft_phase v))) as [Hj|Hj].
  - pose proof (nth_In _ 0 Hj) as Hin. unfold fft_phase in Hin |- *. cbv zeta in *.
    apply in_map_iff in Hin. destruct Hin as [z [<- _]]. apply atan2_range.
  - assert (E : nth j (fft_phase v) 0 = 0) by (apply nth_overflow; exact Hj).
    rewrite E. lra.
Qed.

Lemma fundamental_phase_range (v : list R) (i : nat) (m p : R) :
  fundamental v = Ok (i, m, p) -> - PI < p <= PI.
Proof.
  unfold fundamental, bind. destruct (argmax _); [|discriminate].
  intros E. injection E as _ _ <-. apply nth_fft_phase_range.
Qed.

Lemma wrap_phase_closed (d : R) :
  - 2 * PI < d < 2 * PI -> - PI <= wrap_phase d <= PI.
Proof.
  intros Hd. pose proof PI_RGT_0. unfold wrap_phase.
  destruct (Rlt_dec PI d).
  - destruct (Rlt_dec (d - 2 * PI) (- PI)); lra.
  - destruct (Rlt_dec d (- PI)); lra.
Qed.

Lemma analyze_phase_range (freq : R) (v1 v2 : list R) (r : record) :
  analyze freq v1 v2 = Ok r -> - PI <= r_phase r <= PI.
Proof.
  unfold analyze, bind.
  destruct (rms_of v1); [|discriminate].
  destruct (rms_of v2); [|discriminate].
  destruct (fundamental v1) as [[[i1 m1] p1]|] eqn:F1; [|discriminate].
  destruct (fundamental v2) as [[[i2 m2] p2]|] eqn:F2; [|discriminate].
  destruct (py_div _ _); [|discriminate].
  intros E. injection E as <-. simpl.
  apply fundamental_phase_range in F1. apply fundamental_phase_range in F2.
  apply wrap_phase_closed. lra.
Qed.

(** X6: in every run, every record left in [data] has its phase difference
    in [-pi, pi], and the phase column plotted in degrees
    ([phase*180/pi]) lies in [-180, 180]. *)
Theorem stored_phase_range (sr : scope_reader) (io : exit_io) (fstart fstop fstep : R)
    (fuel : nat) (o : outcome) :
  run_program sr io fstart fstop fstep fuel = Some o ->
  Forall (fun r => - PI <= r_phase r <= PI) (data_at_exit o) /\
  (forall fs gs ps, plot_columns (data_at_exit o) = Ok (fs, gs, ps) ->
     Forall (fun d => -180 <= d <= 180) ps).
Proof.
  intros Hrun.
  assert (Hd : Forall (fun r => - PI <= r_phase r <= PI) (data_at_exit o))
    by (apply (data_at_exit_records sr io _ fstart fstop fstep fuel o);
        [exact analyze_phase_range | exact Hrun]).
  split; [exact Hd|].
  intros fs gs ps Hp. unfold plot_columns in Hp.
  destruct (data_at_exit o) as [|r0 rs] eqn:Hdat; [discriminate|].
  injection Hp as _ _ <-.
  change (Forall (fun d => -180 <= d <= 180)
            (map (fun r => r_phase r * 180 / PI) (r0 :: rs))).
  rewrite Forall_map. refine (Forall_impl _ _ Hd).
  intros r [Hlo Hhi]. pose proof PI_RGT_0 as Hpi.
  assert (Hinv : 0 < / PI) by (apply Rinv_0_lt_compat; exact Hpi).
  assert (Hone : PI * / PI = 1) by (apply Rinv_r; lra).
  assert (0 <= (r_phase r + PI) * / PI) by (apply Rmult_le_pos; lra).
  assert (0 <= (PI - r_phase r) * / PI) by (apply Rmult_le_pos; lra).
  unfold Rdiv. split; nra.
Qed.

Lemma stored_phase_range_witness :
  run_program sample_read exit_ok 100 1000 2 5 =
    Some (mk_outcome None sample_rows true (Some sample_rows)) /\
  Forall (fun r => - PI <= r_phase r <= PI) sample_rows.
Proof.
  split; [exact run_sample|].
  exact (proj1 (stored_phase_range sample_read exit_ok 100 1000 2 5 _ run_sample)).
Defined.

(** ** Frequencies of an aborted run *)

Lemma sweep_loop_any (sr : scope_reader) (fstop fstep : R) (fuel : nat) :
  forall freq data x data',
  sweep_loop sr fstop fstep fuel freq data = Some (x, data') ->
  exists rs, data' = data ++ rs /\
    (forall k, (k < length rs)%nat -> nth k (map r_freq rs) 0 = freq * fstep ^ k) /\
    Forall (fun r => r_freq r < fstop) rs /\
    match x with
    | Some e => freq * fstep ^ length rs < fstop /\
                measure sr (freq * fstep ^ length rs) = Err e
    | None => fstop <= freq * fstep ^ length rs
    end.
Proof.
  induction fuel as [|fuel IH]; intros freq data x data' Hrun; [discriminate|].
  destruct (Rlt_dec freq fstop) as [Hlt|Hge].
  - rewrite sweep_loop_lt in Hrun by exact Hlt.
    destruct (measure sr freq) as [r|e] eqn:Hm.
    + pose proof (measure_freq _ _ _ Hm) as Hf.
      destruct (IH _ _ _ _ Hrun) as [rs [-> [Hnth [Hall Hend]]]].
      exists (r :: rs). split; [rewrite <- app_assoc; reflexivity|].
      replace (freq * fstep ^ length (r :: rs)) with (freq * fstep * fstep ^ length rs)
        by (simpl; ring).
      split; [|split].
      * intros [|k] Hk; simpl.
        -- rewrite Hf. ring.
        -- rewrite Hnth by (simpl in Hk; lia). ring.
      * constructor; [lra | exact Hall].
      * exact Hend.
    + injection Hrun as <- <-. exists []. rewrite app_nil_r.
      split; [reflexivity|]. split; [intros k Hk; simpl in Hk; lia|].
      split; [constructor|]. simpl. rewrite Rmult_1_r. auto.
  - rewrite sweep_loop_ge in Hrun by exact Hge.
    injection Hrun as <- <-. exists []. rewrite app_nil_r.
    split; [reflexivity|]. split; [intros k Hk; simpl in Hk; lia|].
    split; [constructor|]. simpl. lra.
Qed.

(** X7: in every run, normal or aborted, the records left in [data] are at
    [fstart * fstep ^ k] for [k = 0, 1, ...], all below [fstop]. Let
    [next = fstart * fstep ^ (number of records)]. If [next < fstop], a
    step raised: the step at [next], whose exception the script ends with,
    the scope left open and no CSV file. Otherwise the loop exited normally
    and the script went on to the closing calls with these records. *)
Theorem data_at_exit_frequencies (sr : scope_reader) (io : exit_io)
    (fstart fstop fstep : R) (fuel : nat) (o : outcome) :
  run_program sr io fstart fstop fstep fuel = Some o ->
  (forall k, (k < length (data_at_exit o))%nat ->
     nth k (map r_freq (data_at_exit o)) 0 = fstart * fstep ^ k) /\
  Forall (fun r => r_freq r < fstop) (data_at_exit o) /\
  (fstart * fstep ^ length (data_at_exit o) < fstop ->
     exists e, measure sr (fstart * fstep ^ length (data_at_exit o)) = Err e /\
       raised o = Some e /\ scope_closed o = false /\ csv_rows o = None) /\
  (fstop <= fstart * fstep ^ length (data_at_exit o) ->
     o = after_loop io (data_at_exit o)).
Proof.
  intros Hrun. unfold run_program in Hrun.
  destruct (sweep_loop sr fstop fstep fuel fstart []) as [[x data]|] eqn:Hl;
    [|discriminate].
  destruct (sweep_loop_any _ _ _ _ _ _ _ _ Hl) as [rs [Hrs [Hnth [Hall Hend]]]].
  simpl in Hrs. subst rs.
  destruct x as [e|]; injection Hrun as <-; try rewrite after_loop_data;
    (split; [exact Hnth|]); (split; [exact Hall|]); simpl.
  - destruct Hend as [Hlt He]. split.
    + intros _. eauto.
    + intros Hge. lra.
  - split.
    + intros Hlt. lra.
    + intros _. reflexivity.
Qed.

Lemma data_at_exit_frequencies_witness :
  run_program (failing_read 400) exit_ok 100 3200 2 6 =
    Some (mk_outcome (Some AcquisitionError)
            [sample_record 100; sample_record (100 * 2)] false None) /\
  (100 * 2 ^ 2 < 3200 /\
   exists e, measure (failing_read 400) (100 * 2 ^ 2) = Err e /\
     Some AcquisitionError = Some e /\ false = false /\
     @None (list record) = None).
Proof.
  assert (E : run_program (failing_read 400) exit_ok 100 3200 2 6 =
    Some (mk_outcome (Some AcquisitionError)
            [sample_record 100; sample_record (100 * 2)] false None))
    by (unfold run_program; run_loop; reflexivity).
  assert (L : 100 * 2 ^ 2 < 3200) by lra.
  split; [exact E|]. split; [exact L|].
  exact (proj1 (proj2 (proj2 (data_at_exit_frequencies _ _ _ _ _ _ _ E))) L).
Defined.

(** ** The calls of a step before the analysis (lines 94-98, 151-157) *)

Lemma capture_points_after_skip : (data_points - skip = blocks * 1024)%nat.
Proof. unfold data_points. lia. Qed.

Lemma capture_points_enough : (4 <= blocks * 1024)%nat.
Proof. unfold blocks. lia. Qed.

Lemma nonempty_of_length (v : list R) : (4 <= length v)%nat -> v <> [].
Proof. destruct v; simpl; [lia | discriminate]. Qed.

Lemma skipn_repeat {A} (x : A) (k : nat) :
  forall n, skipn k (repeat x n) = repeat x (n - k).
Proof.
  induction k as [|k IH]; intros [|n]; simpl; try reflexivity. apply IH.
Qed.

(** When every call of the step returns, the step is the analysis of the
    two scaled channels. *)
Lemma capture_reader_calls_ok (io : capture_io) (freq : R)
    (raw : list Z * list Z) (v1 v2 t : list R) :
  read_data io (sample_id (select_samplerate freq)) freq data_points = Ok raw ->
  scale_read_data io (skipn skip (fst raw)) channelGain 1%nat = Ok v1 ->
  open_outfile io freq = Ok tt ->
  scale_read_data io (skipn skip (snd raw)) channelGain 2%nat = Ok v2 ->
  convert_sampling_rate_to_measurement_times io (data_points - skip)
    (sample_id (select_samplerate freq)) = Ok t ->
  outfile_write io freq t = Ok tt ->
  measure (capture_reader io) freq = analyze freq v1 v2.
Proof.
  intros Hr H1 Ho H2 Hc Hw. unfold measure, capture_reader.
  rewrite Hr. cbn [bind]. rewrite H1. cbn [bind]. rewrite Ho. cbn [bind].
  rewrite H2. cbn [bind]. rewrite Hc. cbn [bind]. rewrite Hw. reflexivity.
Qed.

(** A step that yields a record got it from the analysis of the scaled
    channels, every call before having returned. *)
Lemma capture_reader_record (io : capture_io) (freq : R) (r : record) :
  measure (capture_reader io) freq = Ok r ->
  exists raw v1,
    read_data io (sample_id (select_samplerate freq)) freq data_points = Ok raw /\
    scale_read_data io (skipn skip (fst raw)) channelGain 1%nat = Ok v1 /\
    exists v2, analyze freq v1 v2 = Ok r.
Proof.
  unfold measure, capture_reader.
  destruct (read_data io _ freq data_points) as [raw|e] eqn:Hr;
    cbn [bind]; [|discriminate].
  destruct (scale_read_data io (skipn skip (fst raw)) channelGain 1%nat) as [v1|e]
    eqn:H1; cbn [bind]; [|discriminate].
  destruct (open_outfile io freq) as [[]|e]; cbn [bind]; [|discriminate].
  destruct (scale_read_data io (skipn skip (snd raw)) channelGain 2%nat) as [v2|e];
    cbn [bind]; [|discriminate].
  destruct (convert_sampling_rate_to_measurement_times io _ _) as [t|e];
    cbn [bind]; [|discriminate].
  destruct (outfile_write io freq t) as [[]|e]; cbn [bind]; [|discriminate].
  intros E. exists raw, v1.
  split; [first [exact Hr | reflexivity]|]. split; [first [exact H1 | reflexivity]|].
  exists v2. exact E.
Qed.

Lemma analyze_long_err (freq : R) (v1 v2 : list R) (e : exn) :
  (4 <= length v1)%nat -> (4 <= length v2)%nat ->
  (analyze freq v1 v2 = Err e <-> e = ZeroDivisionError /\ rms_of v2 = Ok 0).
Proof.
  intros L1 L2. unfold analyze.
  rewrite (rms_of_eq v1 (nonempty_of_length _ L1)).
  rewrite (rms_of_eq v2 (nonempty_of_length _ L2)). cbn [bind].
  destruct (fundamental_ok _ L1) as [f1 E1]. destruct (fundamental_ok _ L2) as [f2 E2].
  rewrite E1, E2. cbn [bind]. unfold py_div.
  destruct (Req_dec_T _ 0) as [Z0|Z0]; split.
  - intros E. injection E as <-. rewrite Z0. split; reflexivity.
  - intros [-> _]. reflexivity.
  - discriminate.
  - intros [_ E]. injection E as E. contradiction.
Qed.

(** X8: when every call of a step returns, [read_data] giving the requested
    [data_points] samples per channel and the scaling keeping the number of
    samples, the step raises exactly when channel 2 has RMS 0, and then
    raises [ZeroDivisionError]; the [skip] samples dropped still leave
    enough for the FFT, so [np.argmax] never raises [ValueError]. *)
Theorem capture_step_errors (io : capture_io) (freq : R)
    (raw : list Z * list Z) (v1 v2 t : list R) (e : exn) :
  read_data io (sample_id (select_samplerate freq)) freq data_points = Ok raw ->
  length (fst raw) = data_points -> length (snd raw) = data_points ->
  scale_read_data io (skipn skip (fst raw)) channelGain 1%nat = Ok v1 ->
  scale_read_data io (skipn skip (snd raw)) channelGain 2%nat = Ok v2 ->
  length v1 = length (skipn skip (fst raw)) ->
  length v2 = length (skipn skip (snd raw)) ->
  open_outfile io freq = Ok tt ->
  convert_sampling_rate_to_measurement_times io (data_points - skip)
    (sample_id (select_samplerate freq)) = Ok t ->
  outfile_write io freq t = Ok tt ->
  (measure (capture_reader io) freq = Err e <->
   e = ZeroDivisionError /\ rms_of v2 = Ok 0).
Proof.
  intros Hr L1 L2 H1 H2 M1 M2 Ho Hc Hw.
  rewrite (capture_reader_calls_ok io freq raw v1 v2 t Hr H1 Ho H2 Hc Hw).
  apply analyze_long_err.
  - rewrite M1, length_skipn, L1, capture_points_after_skip.
    exact capture_points_enough.
  - rewrite M2, length_skipn, L2, capture_points_after_skip.
    exact capture_points_enough.
Qed.

Lemma capture_step_errors_witness :
  let raw := (repeat 0%Z data_points, repeat 0%Z data_points) in
  let v := map IZR (skipn skip (repeat 0%Z data_points)) in
  (read_data zero_capture_io (sample_id (select_samplerate 100)) 100 data_points
     = Ok raw /\
   length (fst raw) = data_points /\ length (snd raw) = data_points /\
   scale_read_data zero_capture_io (skipn skip (fst raw)) channelGain 1%nat = Ok v /\
   scale_read_data zero_capture_io (skipn skip (snd raw)) channelGain 2%nat = Ok v /\
   length v = length (skipn skip (fst raw)) /\
   length v = length (skipn skip (snd raw)) /\
   open_outfile zero_capture_io 100 = Ok tt /\
   convert_sampling_rate_to_measurement_times zero_capture_io (data_points - skip)
     (sample_id (select_samplerate 100)) = Ok [] /\
   outfile_write zero_capture_io 100 [] = Ok tt) /\
  rms_of v = Ok 0 /\
  measure (capture_reader zero_capture_io) 100 = Err ZeroDivisionError.
Proof.
  intros raw v.
  assert (Hr : read_data zero_capture_io (sample_id (select_samplerate 100)) 100
                 data_points = Ok raw) by reflexivity.
  assert (L : length (repeat 0%Z data_points) = data_points) by apply repeat_length.
  assert (S1 : scale_read_data zero_capture_io (skipn skip (fst raw)) channelGain 1%nat
                 = Ok v) by reflexivity.
  assert (S2 : scale_read_data zero_capture_io (skipn skip (snd raw)) channelGain 2%nat
                 = Ok v) by reflexivity.
  assert (M : length v = length (skipn skip (repeat 0%Z data_points)))
    by apply length_map.
  assert (Hv : rms_of v = Ok 0).
  { unfold v. rewrite skipn_repeat, map_repeat, rms_of_repeat.
    - rewrite Rabs_R0. f_equal. ring.
    - rewrite capture_points_after_skip. pose proof capture_points_enough. lia. }
  pose proof (capture_step_errors zero_capture_io 100 raw v v [] ZeroDivisionError
                Hr L L S1 S2 M M eq_refl eq_refl eq_refl) as Hiff.
  split; [repeat split; assumption|]. split; [exact Hv|].
  apply Hiff. split; [reflexivity | exact Hv].
Defined.

(** X9: a capture whose channel 1 has no more than [skip] samples leaves
    nothing once the first [skip] samples are dropped: with a scaling that
    keeps the number of samples, the step never yields a record, and when
    the calls after [read_data] return, it raises [ZeroDivisionError] in the
    RMS of channel 1. *)
Theorem short_capture_zero_division (io : capture_io) (freq : R)
    (raw : list Z * list Z) (v1 v2 t : list R) :
  read_data io (sample_id (select_samplerate freq)) freq data_points = Ok raw ->
  (length (fst raw) <= skip)%nat ->
  (forall l g ch v, scale_read_data io l g ch = Ok v -> length v = length l) ->
  (forall r, measure (capture_reader io) freq <> Ok r) /\
  (scale_read_data io (skipn skip (fst raw)) channelGain 1%nat = Ok v1 ->
   open_outfile io freq = Ok tt ->
   scale_read_data io (skipn skip (snd raw)) channelGain 2%nat = Ok v2 ->
   convert_sampling_rate_to_measurement_times io (data_points - skip)
     (sample_id (select_samplerate freq)) = Ok t ->
   outfile_write io freq t = Ok tt ->
   measure (capture_reader io) freq = Err ZeroDivisionError).
Proof.
  intros Hr Hlen Hscale.
  assert (Hnil : forall v, scale_read_data io (skipn skip (fst raw)) channelGain 1%nat
                   = Ok v -> v = []).
  { intros v E. apply length_zero_iff_nil. rewrite (Hscale _ _ _ _ E), length_skipn.
    lia. }
  split.
  - intros r E. destruct (capture_reader_record _ _ _ E) as [raw' [v [Hr' [H1 [v' Ha]]]]].
    rewrite Hr in Hr'. injection Hr' as <-.
    rewrite (Hnil _ H1) in Ha. unfold analyze in Ha. rewrite rms_of_nil in Ha.
    discriminate.
  - intros H1 Ho H2 Hc Hw.
    rewrite (capture_reader_calls_ok io freq raw v1 v2 t Hr H1 Ho H2 Hc Hw).
    rewrite (Hnil _ H1). unfold analyze. rewrite rms_of_nil. reflexivity.
Qed.

Lemma short_capture_zero_division_witness :
  (read_data short_capture_io (sample_id (select_samplerate 100)) 100 data_points
     = Ok ([], [1%Z]) /\
   (length (fst ([] : list Z, [1%Z])) <= skip)%nat /\
   (forall l g ch v, scale_read_data short_capture_io l g ch = Ok v ->
      length v = length l)) /\
  measure (capture_reader short_capture_io) 100 = Err ZeroDivisionError.
Proof.
  assert (Hr : read_data short_capture_io (sample_id (select_samplerate 100)) 100
                 data_points = Ok ([], [1%Z])) by reflexivity.
  assert (Hl : (length (fst ([] : list Z, [1%Z])) <= skip)%nat) by (simpl; lia).
  assert (Hs : forall l g ch v, scale_read_data short_capture_io l g ch = Ok v ->
                 length v = length l)
    by (intros l g ch v E; injection E as <-; apply length_map).
  split; [split; [exact Hr | split; [exact Hl | exact Hs]]|].
  destruct (short_capture_zero_division short_capture_io 100 ([], [1%Z])
              [] [] [] Hr Hl Hs) as [_ H].
  apply H; reflexivity.
Defined.

(** ** Channel calibration factors *)

Lemma dft_sum_scale (c : R) (v : list R) (k N : nat) :
  forall n, dft_sum (map (Rmult c) v) n k N =
    (c * fst (dft_sum v n k N), c * snd (dft_sum v n k N)).
Proof.
  induction v as [|x t IH]; intros n; simpl.
  - f_equal; ring.
  - rewrite IH. destruct (dft_sum t (S n) k N) as [re im]. simpl. f_equal; ring.
Qed.

Lemma fft_scale (c : R) (v : list R) :
  fft (map (Rmult c) v) = map (fun z => (c * fst z, c * snd z)) (fft v).
Proof.
  unfold fft. rewrite length_map, map_map. apply map_ext. intros k.
  apply dft_sum_scale.
Qed.

Lemma cabs_scale (c : R) (z : R * R) :
  0 < c -> cabs (c * fst z, c * snd z) = c * cabs z.
Proof.
  intros Hc. unfold cabs. simpl.
  replace (c * fst z * (c * fst z) + c * snd z * (c * snd z))
    with ((c * c) * (fst z * fst z + snd z * snd z)) by ring.
  rewrite sqrt_mult_alt by nra. rewrite sqrt_square by lra. reflexivity.
Qed.

Lemma atan2_scale (c x y : R) : 0 < c -> atan2 (c * y) (c * x) = atan2 y x.
Proof.
  intros Hc. unfold atan2.
  assert (Q : x <> 0 -> c * y / (c * x) = y / x) by (intros; field; lra).
  repeat match goal with
         | |- context [Rlt_dec ?a ?b] => destruct (Rlt_dec a b)
         | |- context [Rle_dec ?a ?b] => destruct (Rle_dec a b)
         end;
    try (exfalso; nra); try (rewrite Q by nra; reflexivity); reflexivity.
Qed.

Lemma fft_magnitude_scale (c : R) (v : list R) :
  0 < c -> fft_magnitude (map (Rmult c) v) = map (Rmult c) (fft_magnitude v).
Proof.
  intros Hc. unfold fft_magnitude. rewrite length_map, fft_scale, firstn_map,
    !map_map. apply map_ext. intros z. rewrite cabs_scale by exact Hc.
  unfold Rdiv. ring.
Qed.

Lemma fft_phase_scale (c : R) (v : list R) :
  0 < c -> fft_phase (map (Rmult c) v) = fft_phase v.
Proof.
  intros Hc. unfold fft_phase. rewrite length_map, fft_scale, firstn_map, map_map.
  apply map_ext. intros z. unfold angle. simpl. apply atan2_scale, Hc.
Qed.

Lemma argmax_from_scale (c : R) (l : list R) :
  0 < c -> forall i bi bv,
  argmax_from (map (Rmult c) l) i bi (c * bv) = argmax_from l i bi bv.
Proof.
  intros Hc. induction l as [|x t IH]; intros i bi bv; simpl; [reflexivity|].
  destruct (Rlt_dec (c * bv) (c * x)), (Rlt_dec bv x); try (exfalso; nra); apply IH.
Qed.

Lemma argmax_scale (c : R) (l : list R) :
  0 < c -> argmax (map (Rmult c) l) = argmax l.
Proof.
  intros Hc. destruct l as [|x t]; simpl; [reflexivity|].
  rewrite argmax_from_scale by exact Hc. reflexivity.
Qed.

Lemma tl_map {A B} (f : A -> B) (l : list A) : tl (map f l) = map f (tl l).
Proof. destruct l; reflexivity. Qed.

Lemma nth_map_scale (c : R) (l : list R) :
  forall n, nth n (map (Rmult c) l) 0 = c * nth n l 0.
Proof. induction l as [|x t IH]; intros [|n]; simpl; try ring; apply IH. Qed.

Lemma fundamental_scale (c : R) (v : list R) :
  0 < c ->
  fundamental (map (Rmult c) v) =
  match fundamental v with
  | Ok f => Ok (fst (fst f), c * snd (fst f), snd f)
  | Err e => Err e
  end.
Proof.
  intros Hc. unfold fundamental.
  rewrite fft_magnitude_scale, fft_phase_scale, tl_map, argmax_scale by exact Hc.
  destruct (argmax (tl (fft_magnitude v))) as [i|e]; cbn [bind fst snd];
    [|reflexivity].
  rewrite nth_map_scale. reflexivity.
Qed.

Lemma sum_sq_scale (c : R) (v : list R) :
  sum_sq (map (Rmult c) v) = c * c * sum_sq v.
Proof. induction v as [|x t IH]; simpl; [ring | rewrite IH; ring]. Qed.

Lemma sum_list_scale (c : R) (v : list R) :
  sum_list (map (Rmult c) v) = c * sum_list v.
Proof. induction v as [|x t IH]; simpl; [ring | rewrite IH; ring]. Qed.

Lemma rms_of_scale (c : R) (v : list R) :
  0 < c ->
  rms_of (map (Rmult c) v) =
  match rms_of v with Ok r => Ok (c * r) | Err e => Err e end.
Proof.
  intros Hc. destruct v as [|x t]; [simpl map; rewrite rms_of_nil; reflexivity|].
  rewrite !rms_of_eq by discriminate. f_equal.
  unfold mean_sq, mean. rewrite sum_sq_scale, sum_list_scale, length_map.
  replace (c * c * sum_sq (x :: t) / INR (length (x :: t)))
    with ((c * c) * (sum_sq (x :: t) / INR (length (x :: t))))
    by (unfold Rdiv; ring).
  rewrite sqrt_mult_alt by nra. rewrite sqrt_square by lra.
  unfold Rdiv. ring.
Qed.

(** X10: multiplying the samples of channel 1 by [k1 > 0] and those of
    channel 2 by [k2 > 0] (a calibration factor of [scale_read_data])
    multiplies the stored [rms1] by [k1], [rms2] by [k2] and the gain by
    [k1/k2], leaves the stored phase difference unchanged, and raises the
    same exception where the unscaled step raises. *)
Theorem analyze_channel_scaling (freq k1 k2 : R) (v1 v2 : list R) :
  0 < k1 -> 0 < k2 ->
  analyze freq (map (Rmult k1) v1) (map (Rmult k2) v2) =
  match analyze freq v1 v2 with
  | Ok r => Ok (mk_record (r_freq r) (k1 * r_rms1 r) (k2 * r_rms2 r)
                          (k1 / k2 * r_gain r) (r_phase r))
  | Err e => Err e
  end.
Proof.
  intros H1 H2. unfold analyze.
  rewrite (rms_of_scale k1 v1 H1), (rms_of_scale k2 v2 H2),
    (fundamental_scale k1 v1 H1), (fundamental_scale k2 v2 H2).
  destruct (rms_of v1) as [r1|e]; cbn [bind]; [|reflexivity].
  destruct (rms_of v2) as [r2|e]; cbn [bind]; [|reflexivity].
  destruct (fundamental v1) as [f1|e]; cbn [bind]; [|reflexivity].
  destruct (fundamental v2) as [f2|e]; cbn [bind]; [|reflexivity].
  unfold py_div.
  destruct (Req_dec_T (k2 * r2) 0), (Req_dec_T r2 0); try (exfalso; nra);
    [reflexivity|]. cbn [bind r_freq r_rms1 r_rms2 r_gain r_phase]. do 2 f_equal. field. lra.
Qed.

Lemma analyze_channel_scaling_witness :
  (0 < 2 /\ 0 < 1) /\
  analyze 100 (map (Rmult 2) sample_voltages) (map (Rmult 1) sample_voltages) =
  match analyze 100 sample_voltages sample_voltages with
  | Ok r => Ok (mk_record (r_freq r) (2 * r_rms1 r) (1 * r_rms2 r)
                          (2 / 1 * r_gain r) (r_phase r))
  | Err e => Err e
  end.
Proof.
  split; [lra|]. apply analyze_channel_scaling; lra.
Defined.

(** ** After the loop: CSV file and plot *)

(** X11: a complete CSV file holds every record of [data]; it is written
    only after the loop ended normally and the scope was closed, and the
    script then raises [IndexError] in the plot exactly when
    [fstop <= fstart], nothing otherwise. A run without a complete CSV file
    ends with an exception. When [options.filename] cannot be written, no
    CSV file results: the script ends with the exception of the write (scope
    closed) or, if a step raised, earlier with the scope open. After a
    normal loop exit with closing calls and write that succeed, the CSV file
    is written. *)
Theorem csv_and_plot_after_loop (sr : scope_reader) (io : exit_io)
    (fstart fstop fstep : R) (fuel : nat) (o : outcome) :
  run_program sr io fstart fstop fstep fuel = Some o ->
  (forall rows, csv_rows o = Some rows ->
     rows = data_at_exit o /\ scope_closed o = true /\
     raised o = (if Rle_dec fstop fstart then Some IndexError else None)) /\
  (csv_rows o = None -> raised o <> None) /\
  (forall e, close_handle io = Ok tt -> sinewave_stop io = Ok tt ->
     write_csv io (data_at_exit o) = Err e ->
     csv_rows o = None /\
     ((raised o = Some e /\ scope_closed o = true) \/ scope_closed o = false)) /\
  (close_handle io = Ok tt -> sinewave_stop io = Ok tt ->
     write_csv io (data_at_exit o) = Ok tt ->
     fstop <= fstart * fstep ^ length (data_at_exit o) ->
     csv_rows o = Some (data_at_exit o)).
Proof.
  intros Hrun. unfold run_program in Hrun.
  destruct (sweep_loop sr fstop fstep fuel fstart []) as [[x data]|] eqn:Hl;
    [|discriminate].
  destruct (sweep_loop_any _ _ _ _ _ _ _ _ Hl) as [rs [Hrs [_ [_ Hend]]]].
  simpl in Hrs. subst rs.
  destruct x as [e|]; injection Hrun as <-.
  - simpl. destruct Hend as [Hlt _].
    split; [discriminate|]. split; [discriminate|].
    split; [intros; split; [reflexivity | right; reflexivity]|].
    intros _ _ _ Hge. lra.
  - rewrite after_loop_data. split; [|split; [|split]].
    + intros rows E. destruct (after_loop_csv _ _ _ E) as [-> [Hc Hr]].
      split; [reflexivity|]. split; [exact Hc|]. rewrite Hr.
      destruct (Rle_dec fstop fstart) as [Hle|Hlt].
      * destruct data as [|r rs]; [reflexivity|].
        destruct fuel as [|fuel]; [discriminate|].
        rewrite sweep_loop_ge in Hl by lra. discriminate.
      * destruct data as [|r rs]; [|reflexivity].
        simpl in Hend. lra.
    + unfold after_loop.
      destruct (close_handle io), (sinewave_stop io), (write_csv io data);
        simpl; discriminate.
    + intros e Hc Hs Hw. unfold after_loop. rewrite Hc, Hs, Hw. simpl. auto.
    + intros Hc Hs Hw _. unfold after_loop. rewrite Hc, Hs, Hw. reflexivity.
Qed.

Lemma csv_and_plot_after_loop_witness :
  (run_program sample_read exit_ok 100 1000 2 5 =
     Some (mk_outcome None sample_rows true (Some sample_rows)) /\
   (sample_rows = sample_rows /\ true = true /\
    @None exn = (if Rle_dec 1000 100 then Some IndexError else None))) /\
  (run_program sample_read exit_csv_fails 100 1000 2 5 =
     Some (mk_outcome (Some OSError) sample_rows true None) /\
   (@None (list record) = None /\
    ((Some OSError = Some OSError /\ true = true) \/ true = false))).
Proof.
  assert (E : run_program sample_read exit_csv_fails 100 1000 2 5 =
                Some (mk_outcome (Some OSError) sample_rows true None))
    by (unfold run_program; run_loop; reflexivity).
  split; split.
  - exact run_sample.
  - exact (proj1 (csv_and_plot_after_loop _ _ _ _ _ _ _ run_sample) _ eq_refl).
  - exact E.
  - exact (proj1 (proj2 (proj2 (csv_and_plot_after_loop _ _ _ _ _ _ _ E)))
             OSError eq_refl eq_refl eq_refl).
Defined.
